(** * Exocortex markup: node loader, document assembler, renderer and terminals

    A shallow embedding of [sites/admin/src/interface/ast.ts] (the node
    registry, [ASTNode.loadNode], the [Stack] class, the [DocumentNode]
    constructor and the other node classes), of the template
    [sites/admin/src/component/ContentNode.svelte] and of the terminal
    definitions of the markup grammar.

    Conventions.
    - A JavaScript value that may be [undefined] is an [option]; a thrown
      [TypeError] is [None] in the result of a computation.
    - Heading levels are integers ([Z]).
    - The class fields [children] that [DocumentNode] and [RecursiveNode]
      redeclare without an initialiser are type annotations only: the array
      is the one created by the initialiser of [ASTNode].
    - The private field [obj] of [ASTNode] is written once and never read;
      it is left out of the node record.
    - The registry [ASTNode.NodeTypes] is an object literal: a key that is
      not its own property is read from [Object.prototype], which is taken to
      have the members of the language standard and no others.
    - [new Object(obj)] returns [obj] itself, and [new] throws on a value
      that is no constructor. *)

From Stdlib Require Import ZArith Ascii.
From stdpp Require Import base option list strings gmap sorting.

Local Open Scope Z_scope.
Local Open Scope string_scope.
Local Open Scope list_scope.
Set Warnings "-register-all".
Unset Elimination Schemes.

(** ** Flat parse nodes: [interface ASTObject] *)

(** [children] is an array of strings and objects; [TextNode] declares it as a
    plain string. *)
Inductive Children (A : Type) : Type :=
| Text (s : string)
| Items (l : list A).
Arguments Text {A} s.
Arguments Items {A} l.

(** The properties the constructors read besides [element] and [children]. *)
Record Fields : Type := MkFields {
  obj_level : option Z;
  obj_directive_type : option string;
  obj_directive : option string;
  obj_option : option string;
  obj_value : option string;
}.

Inductive ASTObject : Type :=
| Literal (s : string)
| Object (element : string) (fields : Fields) (children : Children ASTObject).

Definition element (obj : ASTObject) : option string :=
  match obj with
  | Literal _ => None
  | Object e _ _ => Some e
  end.

(** A property key is a string: [undefined] is looked up as ["undefined"]. *)
Definition property_key (k : option string) : string := default "undefined" k.

(** ** The node registry *)

Inductive NodeType : Type :=
| DocumentNode
| HeadingNode
| DirectiveNode
| DirectiveOptionNode
| ParagraphNode
| TextNode
| BlankLineNode
| InternalLinkNode.

Definition registerNode (typename : string) (constructor : NodeType)
    (types : gmap string NodeType) : gmap string NodeType :=
  <[typename := constructor]> types.

(** The decorators run in the order of the class declarations. *)
Definition NodeTypes : gmap string NodeType :=
  registerNode "internal_link" InternalLinkNode
   (registerNode "blank_line" BlankLineNode
    (registerNode "raw_text" TextNode
     (registerNode "paragraph" ParagraphNode
      (registerNode "directive_option" DirectiveOptionNode
       (registerNode "directive_block" DirectiveNode
        (registerNode "heading" HeadingNode
         (registerNode "document" DocumentNode ∅))))))).

Definition registered (tag : string) : bool :=
  bool_decide (is_Some (NodeTypes !! tag)).

(** What [ASTNode.NodeTypes[key]] reads.  The keys of [NodeTypes] are its
    own properties; every other key is looked up in [Object.prototype]:
    there [constructor] is the function [Object], and the other members are
    methods, or for [__proto__] the prototype object itself, none of which
    [new] accepts. *)
Inductive Member : Type :=
| AClass (constructor : NodeType)
| TheObjectFunction
| NoConstructor.

Definition Object_prototype : list string :=
  ["constructor"; "__defineGetter__"; "__defineSetter__"; "hasOwnProperty";
   "__lookupGetter__"; "__lookupSetter__"; "isPrototypeOf";
   "propertyIsEnumerable"; "toString"; "valueOf"; "__proto__";
   "toLocaleString"].

Definition NodeTypes_get (key : string) : option Member :=
  match NodeTypes !! key with
  | Some constructor => Some (AClass constructor)
  | None =>
      if bool_decide (key = "constructor") then Some TheObjectFunction
      else if bool_decide (key ∈ Object_prototype) then Some NoConstructor
      else None
  end.
Arguments NodeTypes_get : simpl never.

(** ** Loaded nodes *)

(** The fields each class adds to those of [ASTNode].  [AnObject] is no
    instance of a class: it is a flat object that [loadNode] returns as it
    is, with its own properties; its [children] are flat nodes and stay in
    the payload, and it has no method. *)
Inductive Instance (N : Type) : Type :=
| AnASTNode
| ADocumentNode (preamble : list N)
| AHeadingNode (level : option Z) (label : list N)
| ADirectiveNode (directiveType directive : option string)
    (options : gmap string (option string))
| ADirectiveOptionNode (key value : option string)
| AParagraphNode
| ATextNode (text : Children ASTObject)
| ABlankLineNode
| AnInternalLinkNode
| AnObject (fields : Fields) (flat : Children ASTObject).
Arguments AnASTNode {N}.
Arguments ADocumentNode {N} preamble.
Arguments AHeadingNode {N} level label.
Arguments ADirectiveNode {N} directiveType directive options.
Arguments ADirectiveOptionNode {N} key value.
Arguments AParagraphNode {N}.
Arguments ATextNode {N} text.
Arguments ABlankLineNode {N}.
Arguments AnInternalLinkNode {N}.
Arguments AnObject {N} fields flat.

Inductive ASTNode : Type := MkASTNode {
  typename : option string;
  children : list ASTNode;
  inst : Instance ASTNode;
}.

Definition set_typename (t : option string) (n : ASTNode) : ASTNode :=
  MkASTNode t (children n) (inst n).

Definition set_children (c : list ASTNode) (n : ASTNode) : ASTNode :=
  MkASTNode (typename n) c (inst n).

(** [new ASTNode(obj)]: the default constructor. *)
Definition ASTNode_new (i : Instance ASTNode) : ASTNode := MkASTNode None [] i.

(** [node.level]: the getter of a document gives 0, a heading has the
    stored level, a flat object its own property. *)
Definition level (n : ASTNode) : option Z :=
  match inst n with
  | ADocumentNode _ => Some 0
  | AHeadingNode l _ => l
  | AnObject f _ => obj_level f
  | _ => None
  end.

Definition preamble (n : ASTNode) : list ASTNode :=
  match inst n with
  | ADocumentNode p => p
  | _ => []
  end.

Definition label (n : ASTNode) : list ASTNode :=
  match inst n with
  | AHeadingNode _ l => l
  | _ => []
  end.

Definition key (n : ASTNode) : option string :=
  match inst n with
  | ADirectiveOptionNode k _ => k
  | _ => None
  end.

Definition value (n : ASTNode) : option string :=
  match inst n with
  | ADirectiveOptionNode _ v => v
  | _ => None
  end.

Definition options (n : ASTNode) : option (gmap string (option string)) :=
  match inst n with
  | ADirectiveNode _ _ o => Some o
  | _ => None
  end.

Definition directiveType (n : ASTNode) : option string :=
  match inst n with
  | ADirectiveNode t _ _ => t
  | _ => None
  end.

(** [node.level !== undefined] *)
Definition isHeader (node : ASTNode) : bool :=
  match level node with
  | Some _ => true
  | None => false
  end.

(** [child instanceof DirectiveOptionNode] *)
Definition instanceof_DirectiveOptionNode (child : ASTNode) : bool :=
  match inst child with
  | ADirectiveOptionNode _ _ => true
  | _ => false
  end.

(** Comparison of two possibly undefined numbers: false when one is
    [undefined]. *)
Definition js_gt (a b : option Z) : bool :=
  match a, b with
  | Some x, Some y => bool_decide (y < x)
  | _, _ => false
  end.

Definition js_lt (a b : option Z) : bool := js_gt b a.

(** ** [class Stack<T>]

    The private array is kept as a list whose head is the last element of
    the array, so that [top] is the head. *)
Module Stack.
Definition t (T : Type) : Type := list T.

Definition new {T} (items : list T) : t T := rev items.

Definition push {T} (item : T) (s : t T) : t T := item :: s.

Definition pop {T} (s : t T) : option T * t T := (head s, tail s).

Definition top {T} (s : t T) : option T := head s.

End Stack.

(** ** References into the tree under construction

    The stack of the document constructor holds references to objects that
    are also reachable from the document itself: the document, or a header
    stored in the [children] array of the object that was on top when it was
    sent.  A reference is the list of [children] indices leading from the
    document to the object; [sendChild] through a reference updates the one
    tree, so that every holder of the object sees the change. *)
Definition Ref : Type := list nat.

Fixpoint deref (this : ASTNode) (r : Ref) : option ASTNode :=
  match r with
  | [] => Some this
  | i :: r' => c ← children this !! i; deref c r'
  end.

Fixpoint modify (f : ASTNode -> option ASTNode) (this : ASTNode) (r : Ref)
    : option ASTNode :=
  match r with
  | [] => f this
  | i :: r' =>
      c ← children this !! i;
      c' ← modify f c r';
      Some (set_children (<[i := c']> (children this)) this)
  end.

(** [sendChild], by the class of the receiver.  Only documents and headings
    have the method: the call throws on any other object. *)
Definition sendChild (this child : ASTNode) : option ASTNode :=
  match inst this with
  | ADocumentNode pre =>
      if isHeader child
      then Some (set_children (children this ++ [child]) this)
      else Some (MkASTNode (typename this) (children this)
                   (ADocumentNode (pre ++ [child])))
  | AHeadingNode _ _ => Some (set_children (children this ++ [child]) this)
  | _ => None
  end.

(** ** The document constructor *)

(** The state of the [forEach] loop: the document and the [headers] stack. *)
Definition Assembly : Type := ASTNode * Stack.t Ref.

(** [while (node.level < headers.top.level) { headers.pop() }] *)
Fixpoint pop_while (this node : ASTNode) (headers : Stack.t Ref)
    : option (Stack.t Ref) :=
  match headers with
  | [] => None
  | top :: below =>
      t ← deref this top;
      if js_lt (level node) (level t)
      then pop_while this node below
      else Some headers
  end.

(** The reference of the header just stored as the last element of the
    [children] of the object at [top]. *)
Definition last_child (this : ASTNode) (top : Ref) : option Ref :=
  t ← deref this top;
  Some (top ++ [pred (length (children t))]).

(** The body of the [forEach] callback after [ASTNode.loadNode(child)]. *)
Definition DocumentNode_step (st : Assembly) (node : ASTNode) : option Assembly :=
  let '(this, headers) := st in
  top ← Stack.top headers;
  this' ← modify (fun t => sendChild t node) this top;
  if isHeader node then
    t ← deref this' top;
    r ← last_child this' top;
    if js_gt (level node) (level t)
    then Some (this', Stack.push r headers)
    else
      headers' ← pop_while this' node headers;
      Some (this', Stack.push r headers')
  else Some (this', headers).

Definition foldM {A S : Type} (f : S -> A -> option S) : S -> list A -> option S :=
  fix go st l :=
    match l with
    | [] => Some st
    | x :: l' => st' ← f st x; go st' l'
    end.

(** The document before the loop: [super(obj)], [preamble = []] and
    [new Stack([this])]. *)
Definition DocumentNode_init : Assembly :=
  (ASTNode_new (ADocumentNode []), Stack.new [[]]).

(** [Object.fromEntries]: later entries overwrite earlier ones. *)
Definition fromEntries (entries : list (option string * option string))
    : gmap string (option string) :=
  foldl (fun m e => <[property_key e.1 := e.2]> m) ∅ entries.

(** The expression assigned to [options] in the directive constructor, as a
    function of [this.children]. *)
Definition DirectiveNode_options (children : list ASTNode)
    : gmap string (option string) :=
  fromEntries
    (map (fun optionNode => (key optionNode, value optionNode))
       (filter (fun child => instanceof_DirectiveOptionNode child = true) children)).

(** [new DirectiveNode(obj)]: [this.children] is the empty array of
    [ASTNode]; the constructor never loads [obj.children]. *)
Definition DirectiveNode_new (fields : Fields) : ASTNode :=
  let this := ASTNode_new AnASTNode in
  MkASTNode (typename this) (children this)
    (ADirectiveNode (obj_directive_type fields) (obj_directive fields)
       (DirectiveNode_options (children this))).

(** [ASTNode.loadNode], with the constructors of the registered classes.
    For the key [constructor] the value read is the function [Object]:
    [new Object(obj)] is [obj], which gets its [element] as [typename].  For
    the other inherited keys [new] throws. *)
Fixpoint loadNode (obj : ASTObject) : option ASTNode :=
  match obj with
  | Literal _ =>
      (* obj.element is undefined: the key "undefined" is neither registered
         nor inherited *)
      Some (set_typename (Some "default_node") (ASTNode_new AnASTNode))
  | Object element fields children =>
      match NodeTypes_get element with
      | None => Some (set_typename (Some "default_node") (ASTNode_new AnASTNode))
      | Some NoConstructor => None
      | Some TheObjectFunction =>
          Some (set_typename (Some element) (ASTNode_new (AnObject fields children)))
      | Some (AClass constructor) =>
          node ←
            match constructor with
            | DocumentNode =>
                match children with
                | Items l =>
                    st ← foldM (fun st child =>
                                  node ← loadNode child;
                                  DocumentNode_step st node)
                           DocumentNode_init l;
                    Some st.1
                | Text _ => None
                end
            | HeadingNode =>
                match children with
                | Items l =>
                    label ← mapM loadNode l;
                    Some (ASTNode_new (AHeadingNode (obj_level fields) label))
                | Text _ => None
                end
            | DirectiveNode => Some (DirectiveNode_new fields)
            | DirectiveOptionNode =>
                Some (ASTNode_new
                        (ADirectiveOptionNode (obj_option fields) (obj_value fields)))
            | ParagraphNode =>
                match children with
                | Items l =>
                    loaded ← mapM loadNode l;
                    Some (set_children loaded (ASTNode_new AParagraphNode))
                | Text _ => None
                end
            | TextNode => Some (ASTNode_new (ATextNode children))
            | BlankLineNode => Some (ASTNode_new ABlankLineNode)
            | InternalLinkNode => Some (ASTNode_new AnInternalLinkNode)
            end;
          Some (set_typename (Some element) node)
      end
  end.

(** The [forEach] callback of the document constructor. *)
Definition load_step (st : Assembly) (child : ASTObject) : option Assembly :=
  node ← loadNode child; DocumentNode_step st node.

(** The loop of the document constructor over the top-level children. *)
Definition DocumentNode_assemble (l : list ASTObject) : option Assembly :=
  foldM load_step DocumentNode_init l.

(** [new DocumentNode(obj)] for [obj.children = l]. *)
Definition DocumentNode_new (l : list ASTObject) : option ASTNode :=
  st ← DocumentNode_assemble l; Some st.1.

(** ** Example flat nodes *)

Definition no_fields : Fields := MkFields None None None None None.

Definition raw_text (s : string) : ASTObject := Object "raw_text" no_fields (Text s).

Definition heading (lvl : Z) (title : string) : ASTObject :=
  Object "heading" (MkFields (Some lvl) None None None None) (Items [raw_text title]).

Definition paragraph (s : string) : ASTObject :=
  Object "paragraph" no_fields (Items [raw_text s]).

Definition directive_option (k v : string) : ASTObject :=
  Object "directive_option" (MkFields None None None (Some k) (Some v)) (Items []).

Definition directive_block (ty : string) (body : list ASTObject) : ASTObject :=
  Object "directive_block" (MkFields None (Some ty) None None None) (Items body).

(** A flat object whose tag reads the function [Object] in the registry. *)
Definition flat_object (lvl : option Z) : ASTObject :=
  Object "constructor" (MkFields lvl None None None None) (Items []).

(** The loaded forms of the same. *)
Definition text_node (s : string) : ASTNode :=
  MkASTNode (Some "raw_text") [] (ATextNode (Text s)).

Definition heading_node (lvl : Z) (title : string) (body : list ASTNode) : ASTNode :=
  MkASTNode (Some "heading") body (AHeadingNode (Some lvl) [text_node title]).

Definition paragraph_node (s : string) : ASTNode :=
  MkASTNode (Some "paragraph") [text_node s] AParagraphNode.

Definition object_node (lvl : option Z) : ASTNode :=
  MkASTNode (Some "constructor") []
    (AnObject (MkFields lvl None None None None) (Items [])).

(** ** Induction on flat nodes *)

Section ASTObject_induction.
Variable P : ASTObject -> Prop.
Hypothesis Hliteral : forall s, P (Literal s).
Hypothesis Htext : forall e f s, P (Object e f (Text s)).
Hypothesis Hitems : forall e f l, Forall P l -> P (Object e f (Items l)).

Fixpoint ASTObject_nested_ind (obj : ASTObject) : P obj :=
  match obj with
  | Literal s => Hliteral s
  | Object e f (Text s) => Htext e f s
  | Object e f (Items l) =>
      Hitems e f l
        ((fix all (l : list ASTObject) : Forall P l :=
            match l with
            | [] => Forall_nil_2 P
            | x :: l' => Forall_cons_2 P x l' (ASTObject_nested_ind x) (all l')
            end) l)
  end.
End ASTObject_induction.

(** ** Predicates of the statements *)

Definition is_document (n : ASTNode) : bool :=
  match inst n with
  | ADocumentNode _ => true
  | _ => false
  end.

(** Whether the object has the method [sendChild]. *)
Definition has_sendChild (n : ASTNode) : bool :=
  match inst n with
  | ADocumentNode _ | AHeadingNode _ _ => true
  | _ => false
  end.

(** What an append to [children] or [preamble] leaves alone. *)
Definition header_of (n : ASTNode) : option Z * bool * option string * bool :=
  (level n, is_document n, typename n, has_sendChild n).

(** An update that only appends keeps every reference alive and pointing to
    an object with the same level and class. *)
Definition appends (f : ASTNode -> option ASTNode) : Prop :=
  forall t t', f t = Some t' ->
    header_of t' = header_of t /\
    forall i c, children t !! i = Some c -> children t' !! i = Some c.

(** The frames of the stack: the document is at the bottom and every
    reference leads to a header of the tree. *)
Definition frame_ok (this : ASTNode) (r : Ref) : Prop :=
  exists t, deref this r = Some t /\ isHeader t = true.

Definition frames_ok (st : Assembly) : Prop :=
  is_document st.1 = true /\ last st.2 = Some [] /\ Forall (frame_ok st.1) st.2.

Definition nonneg_level (n : ASTNode) : bool :=
  match level n with
  | Some l => bool_decide (0 <= l)
  | None => true
  end.

(** A frame that can take a child: its object has the method [sendChild].
    The loop goes on as long as the top of the stack is such a frame. *)
Definition frame_sends (this : ASTNode) (r : Ref) : Prop :=
  exists t, deref this r = Some t /\ has_sendChild t = true.

Definition top_sends (st : Assembly) : Prop :=
  exists top, Stack.top st.2 = Some top /\ frame_sends st.1 top.

(** A header that has no method [sendChild]: a flat object with a level. *)
Definition bare_header (n : ASTNode) : bool := isHeader n && negb (has_sendChild n).

(** No element but the last satisfies [p]. *)
Fixpoint only_last {A : Type} (p : A -> bool) (l : list A) : bool :=
  match l with
  | [] => true
  | x :: l' =>
      (negb (p x) || match l' with [] => true | _ => false end) && only_last p l'
  end.

(** The loaded nodes that come before the first header. *)
Fixpoint before_first_header (nodes : list ASTNode) : list ASTNode :=
  match nodes with
  | [] => []
  | n :: nodes' => if isHeader n then [] else n :: before_first_header nodes'
  end.

(** Once the top of the stack is not the document, the preamble is final and
    the children of the document only change inside. *)
Definition below_document (pre : list ASTNode) (st : Assembly) : Prop :=
  preamble st.1 = pre /\
  Forall (fun n => isHeader n = true) (children st.1) /\
  exists i r below, st.2 = (i :: r) :: below.

(** The level of a loaded node, from what its tag reads in the registry. *)
Definition loaded_level (obj : ASTObject) : option Z :=
  match obj with
  | Literal _ => None
  | Object e f _ =>
      match NodeTypes_get e with
      | Some (AClass HeadingNode) => obj_level f
      | Some (AClass DocumentNode) => Some 0
      | Some TheObjectFunction => obj_level f
      | _ => None
      end
  end.

(** Flat nodes on which no constructor fails: no tag is a member of
    [Object.prototype], [children] is an array where a constructor iterates
    it and no heading has a negative level. *)
Definition iterates_children (e : string) : bool :=
  bool_decide (e ∈ ["document"; "heading"; "paragraph"]).

Definition level_ok (e : string) (f : Fields) : bool :=
  if bool_decide (e = "heading")
  then match obj_level f with
       | Some lvl => bool_decide (0 <= lvl)
       | None => true
       end
  else true.

Fixpoint well_formed (obj : ASTObject) : bool :=
  match obj with
  | Literal _ => true
  | Object e f (Text _) =>
      negb (iterates_children e) && bool_decide (e ∉ Object_prototype)
  | Object e f (Items l) =>
      forallb well_formed l && level_ok e f && bool_decide (e ∉ Object_prototype)
  end.



(** [sendChild] on a receiver that has the method. *)
Definition adopt (this child : ASTNode) : ASTNode :=
  default this (sendChild this child).

(** The tree the loop builds: every node goes under the nearest header
    before it. *)
Fixpoint nest (nodes : list ASTNode) : list ASTNode :=
  match nodes with
  | [] => []
  | n :: rest =>
      if isHeader n then [foldl adopt n (nest rest)] else n :: nest rest
  end.

Definition option_node (k v : string) : ASTNode :=
  MkASTNode (Some "directive_option") [] (ADirectiveOptionNode (Some k) (Some v)).

(** ** Terminals of the grammar *)

(** A terminal matches a prefix of the source: it returns the lexeme and the
    rest of the source. *)
Definition Terminal : Type := string -> option (string * string).

Fixpoint strip_prefix (p s : string) : option string :=
  match p with
  | EmptyString => Some s
  | String a p' =>
      match s with
      | EmptyString => None
      | String b s' => if Ascii.eqb a b then strip_prefix p' s' else None
      end
  end.

(** A string literal of the grammar. *)
Definition lit (p : string) : Terminal :=
  fun s => rest ← strip_prefix p s; Some (p, rest).

(** [a | b] *)
Definition alt (a b : Terminal) : Terminal :=
  fun s =>
    match a s with
    | Some r => Some r
    | None => b s
    end.

(** [a b] *)
Definition seq (a b : Terminal) : Terminal :=
  fun s =>
    x ← a s;
    y ← b x.2;
    Some (String.append x.1 y.1, y.2).

Definition backslash : ascii := "092"%char.

Definition chr (c : ascii) : string := String c EmptyString.

(** [RESERVED_PUNCTUATION]: one of the seven characters
    hash, star, underscore, plus, backslash, backtick and slash. *)
Definition RESERVED_PUNCTUATION : Terminal :=
  alt (lit "#") (alt (lit "*") (alt (lit "_") (alt (lit "+")
    (alt (lit (chr backslash)) (alt (lit "`") (lit "/")))))).

(** [ESCAPE.1]: a backtick, then [RESERVED_PUNCTUATION]. *)
Definition ESCAPE : Terminal := seq (lit "`") RESERVED_PUNCTUATION.

Definition reserved_punctuation : list ascii :=
  ["#"; "*"; "_"; "+"; backslash; "`"; "/"]%char.

(** Modelled from the spec: the grammar only names the terminal; the code
    that turns an ESCAPE lexeme into text is not among the sources.  By the
    spec a backtick followed by a reserved punctuation character is consumed
    as a single literal occurrence of that character: the literal is the
    lexeme without its backtick. *)
Definition ESCAPE_literal (lexeme : string) : string :=
  match lexeme with
  | EmptyString => EmptyString
  | String _ literal => literal
  end.

(** ** The flat nodes the loader accepts *)

(** A level that is undefined or not negative. *)
Definition level_nonneg (lvl : option Z) : bool :=
  match lvl with
  | Some l => bool_decide (0 <= l)
  | None => true
  end.

(** The flat nodes that load as such a header. *)
Definition loads_bare_header (obj : ASTObject) : bool :=
  match obj with
  | Literal _ => false
  | Object e f _ =>
      match NodeTypes_get e with
      | Some TheObjectFunction => bool_decide (is_Some (obj_level f))
      | _ => false
      end
  end.

(** The flat nodes [loadNode] returns on: the tag reads a class, the
    function [Object] or nothing in the registry; [children] is an array
    where the constructor iterates it and the children load; and among the
    children of a document no header has a negative level and no header but
    the last child lacks the method [sendChild]. *)
Fixpoint loadable (obj : ASTObject) : bool :=
  match obj with
  | Literal _ => true
  | Object e f c =>
      match NodeTypes_get e with
      | Some (AClass DocumentNode) =>
          match c with
          | Items l =>
              forallb (fun child => loadable child && level_nonneg (loaded_level child)) l
              && only_last loads_bare_header l
          | Text _ => false
          end
      | Some (AClass HeadingNode) | Some (AClass ParagraphNode) =>
          match c with
          | Items l => forallb loadable l
          | Text _ => false
          end
      | Some NoConstructor => false
      | _ => true
      end
  end.

(** ** The levels of the frames on the stack *)

(** [headers.top.level], read through a reference. *)
Definition frame_level (this : ASTNode) (r : Ref) : option Z :=
  t ← deref this r; level t.

(** The levels of the frames, from the top of the stack down: all defined,
    none less than the one below it, the last one 0. *)
Definition deeper_or_equal (a b : Z) : Prop := b <= a.

Definition levels_ok (st : Assembly) : Prop :=
  exists levels : list Z,
    Forall2 (fun r lvl => frame_level st.1 r = Some lvl) st.2 levels /\
    Sorted deeper_or_equal levels /\
    last levels = Some 0.

(** ** The type names of a loaded tree *)

(** The tag each class is registered for; "default_node" for [ASTNode], and
    for a flat object the one tag that returns it. *)
Definition class_tag (i : Instance ASTNode) : string :=
  match i with
  | AnASTNode => "default_node"
  | ADocumentNode _ => "document"
  | AHeadingNode _ _ => "heading"
  | ADirectiveNode _ _ _ => "directive_block"
  | ADirectiveOptionNode _ _ => "directive_option"
  | AParagraphNode => "paragraph"
  | ATextNode _ => "raw_text"
  | ABlankLineNode => "blank_line"
  | AnInternalLinkNode => "internal_link"
  | AnObject _ _ => "constructor"
  end.

(** Every node below [n], in [children], [preamble] and [label], has the
    type name of its class. *)
Fixpoint well_tagged_below (n : ASTNode) : bool :=
  match n with
  | MkASTNode _ cs i =>
      forallb (fun c => bool_decide (typename c = Some (class_tag (inst c)))
                          && well_tagged_below c) cs
      && match i with
         | ADocumentNode pre =>
             forallb (fun c => bool_decide (typename c = Some (class_tag (inst c)))
                                 && well_tagged_below c) pre
         | AHeadingNode _ lab =>
             forallb (fun c => bool_decide (typename c = Some (class_tag (inst c)))
                                 && well_tagged_below c) lab
         | _ => true
         end
  end.

Definition well_tagged (n : ASTNode) : bool :=
  bool_decide (typename n = Some (class_tag (inst n))) && well_tagged_below n.

(** ** The options of a directive *)

(** The value of the last option node of [children] whose key is [k]. *)
Definition last_option_value (k : string) (children : list ASTNode)
    : option (option string) :=
  last (omap (fun child =>
                if instanceof_DirectiveOptionNode child
                   && bool_decide (property_key (key child) = k)
                then Some (value child) else None) children).

(** ** The component [ContentNode.svelte] *)

(** The markup the component produces.  [HeadN] is the imported heading
    component, with its [level] and the content of its slot; [Unknown] is the
    paragraph "Unknown type 'typename'". *)
Inductive Markup : Type :=
| Div (content : list Markup)
| HeadN (level : option Z) (slot : list Markup)
| Par (content : list Markup)
| Span (text : Children ASTObject)
| Br
| Unknown (typename : option string).

(** The [if] chain of the template, by the class of [node]. *)
Fixpoint ContentNode (node : ASTNode) : Markup :=
  match node with
  | MkASTNode typename children i =>
      match i with
      | ADocumentNode _ => Div (map ContentNode children)
      | AHeadingNode level label =>
          Div (HeadN level (map ContentNode label) :: map ContentNode children)
      | AParagraphNode => Par (map ContentNode children)
      | ATextNode text => Span text
      | ABlankLineNode => Br
      | _ => Unknown typename
      end
  end.

(** The sequence of elements shown, the grouping [div]s taken away. *)
Fixpoint shown (m : Markup) : list Markup :=
  match m with
  | Div content => flat_map shown content
  | _ => [m]
  end.

(** The loaded nodes from the first header on. *)
Fixpoint from_first_header (nodes : list ASTNode) : list ASTNode :=
  match nodes with
  | [] => []
  | n :: nodes' => if isHeader n then nodes else from_first_header nodes'
  end.

(** The elements the template has a branch for. *)
Definition rendered_elements : list string :=
  ["document"; "heading"; "paragraph"; "raw_text"; "blank_line"].

Set Elimination Schemes.

(** ** The terminals as patterns

    A terminal of the grammar is a regular expression, and the lexemes of
    the terminals with repetitions are not found by the prefix matchers
    above, which never go back on a choice.  [Pattern.t] has the operators
    the terminal definitions use; [Pattern.accepts] decides, by derivatives,
    whether a pattern matches a whole lexeme, and [Pattern.matches] is the
    language of a pattern.  The priorities of the terminals order the choices
    of the lexer and are no part of their languages. *)
Module Pattern.

Inductive t : Type :=
| Never
| Empty
| Class (p : ascii -> bool)
| Seq (a b : t)
| Or (a b : t)
| Star (a : t).

(** [a+], [a?] and a string literal. *)
Definition Plus (a : t) : t := Seq a (Star a).

Definition Opt (a : t) : t := Or a Empty.

Definition Chr (c : ascii) : t := Class (Ascii.eqb c).

Fixpoint Str (s : string) : t :=
  match s with
  | EmptyString => Empty
  | String c s' => Seq (Chr c) (Str s')
  end.

Fixpoint nullable (a : t) : bool :=
  match a with
  | Never => false
  | Empty => true
  | Class _ => false
  | Seq a b => nullable a && nullable b
  | Or a b => nullable a || nullable b
  | Star _ => true
  end.

(** The pattern of what may follow the character [c]. *)
Fixpoint after (c : ascii) (a : t) : t :=
  match a with
  | Never => Never
  | Empty => Never
  | Class p => if p c then Empty else Never
  | Seq a b =>
      if nullable a
      then Or (Seq (after c a) b) (after c b)
      else Seq (after c a) b
  | Or a b => Or (after c a) (after c b)
  | Star a => Seq (after c a) (Star a)
  end.

Definition accepts (a : t) (s : list ascii) : bool :=
  nullable (foldl (fun a c => after c a) a s).

(** The language of a pattern. *)
Inductive matches : t -> list ascii -> Prop :=
| matches_Empty : matches Empty []
| matches_Class p c : p c = true -> matches (Class p) [c]
| matches_Seq a b s1 s2 : matches a s1 -> matches b s2 -> matches (Seq a b) (s1 ++ s2)
| matches_Or_l a b s : matches a s -> matches (Or a b) s
| matches_Or_r a b s : matches b s -> matches (Or a b) s
| matches_Star_nil a : matches (Star a) []
| matches_Star_cons a s1 s2 :
    matches a s1 -> matches (Star a) s2 -> matches (Star a) (s1 ++ s2).

(** *** The terminals *)

(** [DIGIT], [LETTER], [CR] and [LF] are imported from the common grammar of
    the parser generator: the decimal digits, the letters a to z and A to Z,
    carriage return and line feed.  The terminals below are those of the
    grammar in its order, but for the raw block, whose content is any text. *)
Definition is_digit (c : ascii) : bool :=
  let n := nat_of_ascii c in (48 <=? n)%nat && (n <=? 57)%nat.

Definition is_letter (c : ascii) : bool :=
  let n := nat_of_ascii c in
  ((65 <=? n)%nat && (n <=? 90)%nat) || ((97 <=? n)%nat && (n <=? 122)%nat).

Definition DIGIT : t := Class is_digit.
Definition LETTER : t := Class is_letter.
Definition CR : t := Chr "013".
Definition LF : t := Chr "010".

Definition _NEWLINE : t := Seq (Opt CR) LF.

Definition ALPHANUM : t := Or DIGIT LETTER.

Definition safe_punctuation : list ascii :=
  ["!"; "034"; "$"; "%"; "&"; "'"; "("; ")"; ","; "-"; "."; ":"; ";"; "<"; "=";
   ">"; "?"; "@"; "["; "]"; "^"; "{"; "|"; "}"; "~"]%char.

Definition one_of (l : list ascii) (c : ascii) : bool := existsb (Ascii.eqb c) l.

Definition SAFE_PUNCTUATION : t := Class (one_of safe_punctuation).

Definition RESERVED_PUNCTUATION : t := Class (one_of reserved_punctuation).

Definition ESCAPE : t := Seq (Chr "`") RESERVED_PUNCTUATION.

Definition PUNCTUATION : t := Or SAFE_PUNCTUATION RESERVED_PUNCTUATION.

Definition WHITESPACE : t := Or (Chr " ") (Chr "009").

Definition SAFECHAR : t := Or LETTER (Or SAFE_PUNCTUATION ESCAPE).

Definition TEXTCHAR : t := Or ALPHANUM PUNCTUATION.

Definition WORD : t :=
  Or (Plus SAFECHAR) (Seq SAFECHAR (Seq (Star TEXTCHAR) (Or SAFECHAR DIGIT))).

Definition UNSAFE_WORD : t := Plus TEXTCHAR.

Definition LINE_START : t := Or TEXTCHAR (Class (one_of [" "; "009"]%char)).

Definition LINE : t := Seq LINE_START (Seq (Plus TEXTCHAR) _NEWLINE).

Definition _INDENT : t := Str "  ".

End Pattern.

Definition chars (s : string) : list ascii := String.list_ascii_of_string s.

(** The character classes of the word terminals. *)

Definition is_safe_punctuation : ascii -> bool := Pattern.one_of Pattern.safe_punctuation.

Definition is_reserved_punctuation : ascii -> bool := Pattern.one_of reserved_punctuation.

Definition is_textchar (c : ascii) : bool :=
  Pattern.is_digit c || Pattern.is_letter c || is_safe_punctuation c || is_reserved_punctuation c.

(** * Properties *)

(** ** The registry *)

Lemma NodeTypes_lookup_Some tag c :
  NodeTypes !! tag = Some c ->
  (tag, c) ∈ [("document", DocumentNode); ("heading", HeadingNode);
              ("directive_block", DirectiveNode);
              ("directive_option", DirectiveOptionNode);
              ("paragraph", ParagraphNode); ("raw_text", TextNode);
              ("blank_line", BlankLineNode); ("internal_link", InternalLinkNode)].
Proof.
  unfold NodeTypes, registerNode. intros H.
  repeat (apply lookup_insert_Some in H as [[<- <-]|[_ H]];
          [set_solver|]).
  by rewrite lookup_empty in H.
Qed.

(** The key of an undefined [element] reads nothing, own or inherited. *)
Lemma undefined_not_registered : NodeTypes_get (property_key None) = None.
Proof. reflexivity. Qed.

Ltac not_in_list H :=
  repeat (apply elem_of_cons in H as [H|H]; [done|]); by apply elem_of_nil in H.

Ltac registry_cases H :=
  apply NodeTypes_lookup_Some in H;
  repeat (apply elem_of_cons in H as [[= -> ->]|H]);
  [..|by apply elem_of_nil in H].

(** The four outcomes of a read of the registry. *)
Lemma NodeTypes_get_spec key :
  match NodeTypes_get key with
  | Some (AClass c) => NodeTypes !! key = Some c
  | Some TheObjectFunction => NodeTypes !! key = None /\ key = "constructor"
  | Some NoConstructor =>
      NodeTypes !! key = None /\ key ∈ Object_prototype /\ key <> "constructor"
  | None => NodeTypes !! key = None /\ key ∉ Object_prototype
  end.
Proof.
  unfold NodeTypes_get. destruct (NodeTypes !! key) as [c|]; [done|].
  destruct (decide (key = "constructor")) as [->|Hne]; [done|].
  rewrite bool_decide_eq_false_2 by done.
  destruct (decide (key ∈ Object_prototype)).
  - by rewrite bool_decide_eq_true_2.
  - by rewrite bool_decide_eq_false_2.
Qed.

Lemma NodeTypes_get_own key :
  key ∉ Object_prototype -> NodeTypes_get key = AClass <$> NodeTypes !! key.
Proof.
  intros Hkey. pose proof (NodeTypes_get_spec key) as H.
  destruct (NodeTypes_get key) as [[c| |]|].
  - by rewrite H.
  - destruct H as [_ ->]. exfalso. apply Hkey. set_solver.
  - by destruct H as (_ & ? & _).
  - by destruct H as [-> _].
Qed.

Lemma NodeTypes_get_registered key :
  registered key = true <-> exists c, NodeTypes_get key = Some (AClass c).
Proof.
  unfold registered. rewrite bool_decide_eq_true.
  pose proof (NodeTypes_get_spec key) as H.
  destruct (NodeTypes_get key) as [[c| |]|].
  - rewrite H. split; eauto.
  - destruct H as [-> _]. split; [by intros [? ?]|by intros [? ?]].
  - destruct H as [-> _]. split; [by intros [? ?]|by intros [? ?]].
  - destruct H as [-> _]. split; [by intros [? ?]|by intros [? ?]].
Qed.

(** ** References *)

Lemma header_of_set_children c n : header_of (set_children c n) = header_of n.
Proof. reflexivity. Qed.

Lemma deref_app this r1 r2 :
  deref this (r1 ++ r2) = t ← deref this r1; deref t r2.
Proof.
  revert this. induction r1 as [|i r1 IH]; intros this; simpl; [done|].
  destruct (children this !! i) as [c|]; simpl; [apply IH|done].
Qed.

Lemma modify_Some f this r this' :
  modify f this r = Some this' ->
  exists t t', deref this r = Some t /\ f t = Some t' /\ deref this' r = Some t'.
Proof.
  revert this this'. induction r as [|i r IH]; intros this this' H; simpl in *.
  - eauto.
  - destruct (children this !! i) as [c|] eqn:Hc; simpl in *; [|done].
    destruct (modify f c r) as [c'|] eqn:Hm; simpl in *; [|done].
    injection H as <-. destruct (IH _ _ Hm) as (t & t' & Ht & Hf & Ht').
    exists t, t'. split_and!; [done..|]. simpl.
    rewrite list_lookup_insert_eq; [done|]. by eapply lookup_lt_Some.
Qed.

Lemma modify_is_Some f this r t :
  deref this r = Some t -> is_Some (f t) -> is_Some (modify f this r).
Proof.
  revert this. induction r as [|i r IH]; intros this Ht Hf; simpl in *.
  - by injection Ht as ->.
  - destruct (children this !! i) as [c|]; simpl in *; [|done].
    destruct (IH _ Ht Hf) as [c' ->]. simpl. eauto.
Qed.

Lemma modify_deref f this r this' :
  appends f -> modify f this r = Some this' ->
  forall r' x, deref this r' = Some x ->
    exists x', deref this' r' = Some x' /\ header_of x' = header_of x.
Proof.
  intros Hf. revert this this'.
  induction r as [|i r IH]; intros this this' Hm r' x Hx; simpl in *.
  - destruct (Hf _ _ Hm) as [Hh Hc]. destruct r' as [|j r']; simpl in *.
    + injection Hx as <-. eauto.
    + destruct (children this !! j) as [c|] eqn:Hj; simpl in *; [|done].
      rewrite (Hc _ _ Hj). simpl. eauto.
  - destruct (children this !! i) as [c|] eqn:Hc; simpl in *; [|done].
    destruct (modify f c r) as [c'|] eqn:Hm'; simpl in *; [|done].
    injection Hm as <-. destruct r' as [|j r']; simpl in *.
    + injection Hx as <-. eauto.
    + destruct (decide (j = i)) as [->|Hne].
      * rewrite Hc in Hx. simpl in Hx.
        rewrite list_lookup_insert_eq by (by eapply lookup_lt_Some). simpl.
        eauto.
      * rewrite list_lookup_insert_ne by done.
        destruct (children this !! j) as [d|]; simpl in *; [eauto|done].
Qed.

Lemma sendChild_appends node : appends (fun t => sendChild t node).
Proof.
  intros t t'. unfold sendChild, header_of, level, is_document.
  destruct t as [ty cs i]; simpl.
  destruct i; try done; [destruct (isHeader node)|]; intros [= <-]; simpl;
    (split; [done|]); intros; by try apply lookup_app_l_Some.
Qed.

Lemma sendChild_is_Some t node :
  has_sendChild t = true -> is_Some (sendChild t node).
Proof.
  unfold has_sendChild, sendChild.
  destruct (inst t); try done; intros _; try destruct (isHeader node); eauto.
Qed.

(** The call throws on an object without the method. *)
Lemma sendChild_None t node : has_sendChild t = false -> sendChild t node = None.
Proof. unfold has_sendChild, sendChild. by destruct (inst t). Qed.

Lemma sendChild_Some t node t' :
  sendChild t node = Some t' -> has_sendChild t = true.
Proof.
  intros H. destruct (has_sendChild t) eqn:E; [done|].
  by rewrite (sendChild_None _ node E) in H.
Qed.

(** A header is always stored in [children], on a document as on a heading. *)
Lemma sendChild_header t node t' :
  isHeader node = true -> sendChild t node = Some t' ->
  children t' = children t ++ [node] /\ inst t' = inst t.
Proof.
  unfold sendChild. intros Hn. rewrite Hn.
  destruct (inst t) eqn:Hi; try done; by intros [= <-].
Qed.


(** ** One iteration of the loop *)

(** The loop of [pop_while] in the words of the class [Stack]. *)
Lemma pop_while_unfold this node headers :
  pop_while this node headers =
  match Stack.top headers with
  | None => None
  | Some top =>
      t ← deref this top;
      if js_lt (level node) (level t)
      then pop_while this node (Stack.pop headers).2
      else Some headers
  end.
Proof. by destruct headers. Qed.

Lemma pop_while_Some this node headers headers' :
  pop_while this node headers = Some headers' ->
  exists popped top below t,
    headers = popped ++ headers' /\ headers' = top :: below /\
    deref this top = Some t /\ js_lt (level node) (level t) = false /\
    Forall (fun r => exists x, deref this r = Some x /\
                               js_lt (level node) (level x) = true) popped.
Proof.
  revert headers'. induction headers as [|top below IH]; intros headers' H;
    simpl in *; [done|].
  destruct (deref this top) as [t|] eqn:Ht; simpl in *; [|done].
  destruct (js_lt (level node) (level t)) eqn:Hlt.
  - destruct (IH _ H) as (popped & top' & below' & t' & -> & -> & ? & ? & ?).
    exists (top :: popped), top', below', t'. split_and!; try done.
    constructor; eauto.
  - injection H as <-. exists [], top, below, t. split_and!; try done.
Qed.

Lemma DocumentNode_step_Some this headers node st' :
  DocumentNode_step (this, headers) node = Some st' ->
  exists top below this' t,
    headers = top :: below /\
    modify (fun t => sendChild t node) this top = Some this' /\
    deref this' top = Some t /\
    if isHeader node
    then exists headers',
        st' = (this', (top ++ [pred (length (children t))]) :: headers') /\
        if js_gt (level node) (level t)
        then headers' = headers
        else pop_while this' node headers = Some headers'
    else st' = (this', headers).
Proof.
  unfold DocumentNode_step, Stack.top, Stack.push, last_child.
  destruct headers as [|top below]; cbn -[pop_while]; [done|].
  destruct (modify _ this top) as [this'|] eqn:Hm; cbn -[pop_while]; [|done].
  destruct (modify_Some _ _ _ _ Hm) as (t0 & t & _ & _ & Ht).
  intros H. exists top, below, this', t. split_and!; try done.
  rewrite Ht in H. cbn -[pop_while] in H.
  destruct (isHeader node); [|by injection H as <-].
  destruct (js_gt (level node) (level t)).
  { injection H as <-. by eexists. }
  destruct (pop_while this' node (top :: below)) as [hs|]; cbn in H; [|done].
  injection H as <-. by eexists.
Qed.

Lemma isHeader_header_of t t' : header_of t' = header_of t -> isHeader t' = isHeader t.
Proof. unfold header_of, isHeader. by intros [= -> _ _ _]. Qed.

Lemma level_header_of t t' : header_of t' = header_of t -> level t' = level t.
Proof. unfold header_of. by intros [= -> _ _ _]. Qed.

Lemma is_document_header_of t t' :
  header_of t' = header_of t -> is_document t' = is_document t.
Proof. unfold header_of. by intros [= _ -> _ _]. Qed.

Lemma has_sendChild_header_of t t' :
  header_of t' = header_of t -> has_sendChild t' = has_sendChild t.
Proof. unfold header_of. by intros [= _ _ _ ->]. Qed.

Lemma is_document_has_sendChild n : is_document n = true -> has_sendChild n = true.
Proof. unfold is_document, has_sendChild. by destruct (inst n). Qed.

Lemma frame_ok_modify f this r this' r' :
  appends f -> modify f this r = Some this' -> frame_ok this r' -> frame_ok this' r'.
Proof.
  intros Hf Hm (t & Ht & Hh).
  destruct (modify_deref _ _ _ _ Hf Hm _ _ Ht) as (t' & Ht' & Heq).
  exists t'. split; [done|]. by rewrite (isHeader_header_of _ _ Heq).
Qed.

Lemma frames_ok_init : frames_ok DocumentNode_init.
Proof.
  split_and!; [done..|]. repeat constructor. by exists (ASTNode_new (ADocumentNode [])).
Qed.

(** The header just sent is the last child of the frame it was sent to. *)
Lemma sent_header_deref this top node this' t :
  isHeader node = true ->
  modify (fun t => sendChild t node) this top = Some this' ->
  deref this' top = Some t ->
  deref this' (top ++ [pred (length (children t))]) = Some node.
Proof.
  intros Hn Hm Ht. rewrite deref_app, Ht. simpl.
  destruct (modify_Some _ _ _ _ Hm) as (t0 & t' & _ & Hs & Ht').
  rewrite Ht in Ht'. injection Ht' as <-.
  destruct (sendChild_header _ _ _ Hn Hs) as [-> _].
  rewrite length_app, Nat.add_1_r. simpl.
  by rewrite lookup_app_r, Nat.sub_diag.
Qed.

Lemma last_suffix {A} (popped l : list A) x :
  l <> [] -> last (popped ++ l) = x -> last l = x.
Proof. intros Hl. by rewrite last_app; destruct (last l) eqn:E; [|apply last_None in E]. Qed.

Lemma frames_ok_step st node st' :
  frames_ok st -> DocumentNode_step st node = Some st' -> frames_ok st'.
Proof.
  destruct st as [this headers]. intros (Hdoc & Hlast & Hall) Hstep.
  destruct (DocumentNode_step_Some _ _ _ _ Hstep)
    as (top & below & this' & t & -> & Hm & Ht & Hcase).
  pose proof (sendChild_appends node) as Hf.
  assert (Hdoc' : is_document this' = true).
  { destruct (modify_deref _ _ _ _ Hf Hm [] this eq_refl) as (x & [= <-] & Hx).
    by rewrite (is_document_header_of _ _ Hx). }
  assert (Hall' : Forall (frame_ok this') (top :: below)).
  { eapply Forall_impl; [exact Hall|]. intros r. exact (frame_ok_modify _ _ _ _ _ Hf Hm). }
  destruct (isHeader node) eqn:Hn.
  - destruct Hcase as (hs & -> & Hcase).
    assert (Hnew : frame_ok this' (top ++ [pred (length (children t))])).
    { exists node. split; [|done]. by eapply sent_header_deref. }
    destruct (js_gt (level node) (level t)).
    + subst hs. unfold frames_ok. cbn [fst snd].
      split_and!; [done|by rewrite last_cons_cons|by constructor].
    + destruct (pop_while_Some _ _ _ _ Hcase)
        as (popped & top' & below' & t' & Heq & -> & _ & _ & _).
      unfold frames_ok. cbn [fst snd]. split_and!; [done| |].
      * rewrite last_cons_cons. rewrite Heq in Hlast.
        by apply last_suffix in Hlast.
      * constructor; [done|]. rewrite Heq in Hall'.
        by apply Forall_app in Hall' as [_ ?].
  - subst st'. by split_and!.
Qed.

(** ** The loop *)

Lemma foldM_cons {A S} (f : S -> A -> option S) st x l :
  foldM f st (x :: l) = st' ← f st x; foldM f st' l.
Proof. reflexivity. Qed.

Lemma foldM_app {A S} (f : S -> A -> option S) st l1 l2 :
  foldM f st (l1 ++ l2) = st' ← foldM f st l1; foldM f st' l2.
Proof.
  revert st. induction l1 as [|x l1 IH]; intros st; simpl; [done|].
  destruct (f st x) as [st'|]; simpl; [apply IH|done].
Qed.

Lemma foldM_invariant {A S} (f : S -> A -> option S) (P : S -> Prop) l st st' :
  (forall s x s', P s -> f s x = Some s' -> P s') ->
  P st -> foldM f st l = Some st' -> P st'.
Proof.
  intros Hf. revert st. induction l as [|x l IH]; intros st HP H; simpl in *.
  - by injection H as <-.
  - destruct (f st x) as [s|] eqn:Hs; simpl in *; [|done]. eauto.
Qed.

(** The loop loads every child; it is the loop over the loaded nodes. *)

Lemma load_step_loaded st child node :
  loadNode child = Some node -> load_step st child = DocumentNode_step st node.
Proof. unfold load_step. by intros ->. Qed.

Lemma load_step_Some st child st' :
  load_step st child = Some st' ->
  exists node, loadNode child = Some node /\ DocumentNode_step st node = Some st'.
Proof.
  unfold load_step. destruct (loadNode child) as [n|]; simpl; [eauto|done].
Qed.

Lemma assemble_loaded l nodes st :
  mapM loadNode l = Some nodes ->
  foldM load_step st l = foldM DocumentNode_step st nodes.
Proof.
  intros H. apply mapM_Some_1 in H. revert st.
  induction H as [|x n l nodes Hx _ IH]; intros st; simpl; [done|].
  rewrite (load_step_loaded _ _ _ Hx).
  destruct (DocumentNode_step st n); simpl; [apply IH|done].
Qed.

Lemma assemble_Some_loaded l st st' :
  foldM load_step st l = Some st' -> exists nodes, mapM loadNode l = Some nodes.
Proof.
  revert st. induction l as [|x l IH]; intros st H; simpl in *; [by eexists|].
  destruct (load_step st x) as [s|] eqn:Hs; simpl in *; [|done].
  apply load_step_Some in Hs as (n & -> & _).
  destruct (IH _ H) as [nodes ->]. by eexists.
Qed.

Lemma frames_ok_assemble l st :
  DocumentNode_assemble l = Some st -> frames_ok st.
Proof.
  apply foldM_invariant; [|apply frames_ok_init].
  intros s x s' Hs H. apply load_step_Some in H as (n & _ & H).
  by eapply frames_ok_step.
Qed.

(** ** Totality of the assembly *)

Lemma is_document_level n : is_document n = true -> level n = Some 0.
Proof. unfold is_document, level. by destruct (inst n). Qed.

Lemma pop_while_is_Some this node headers :
  level this = Some 0 -> nonneg_level node = true ->
  last headers = Some [] -> Forall (frame_ok this) headers ->
  is_Some (pop_while this node headers).
Proof.
  intros Hroot Hnode. induction headers as [|top below IH]; intros Hlast Hall;
    [done|].
  apply Forall_cons in Hall as [(t & Ht & _) Hall]. simpl. rewrite Ht. simpl.
  destruct (js_lt (level node) (level t)) eqn:Hlt; [|eauto].
  destruct below as [|top' below].
  - injection Hlast as ->. injection Ht as <-. exfalso.
    unfold nonneg_level in Hnode. unfold js_lt, js_gt in Hlt. rewrite Hroot in Hlt.
    destruct (level node) as [l|]; [|done].
    apply bool_decide_eq_true in Hnode, Hlt. lia.
  - apply IH; [by rewrite last_cons_cons in Hlast|done].
Qed.

Lemma DocumentNode_step_is_Some st node :
  frames_ok st -> top_sends st -> nonneg_level node = true ->
  is_Some (DocumentNode_step st node).
Proof.
  destruct st as [this headers].
  intros (Hdoc & Hlast & Hall) (top0 & Htop0 & t & Ht & Hh) Hnode.
  cbn [fst snd] in *. unfold DocumentNode_step, Stack.top, Stack.push, last_child.
  destruct headers as [|top below]; [done|]. cbn -[pop_while].
  injection Htop0 as <-.
  pose proof (sendChild_appends node) as Hf.
  destruct (modify_is_Some (fun t => sendChild t node) _ _ _ Ht
              (sendChild_is_Some _ node Hh)) as [this' Hm].
  rewrite Hm. cbn -[pop_while].
  destruct (isHeader node); [|eauto].
  destruct (modify_Some _ _ _ _ Hm) as (_ & t' & _ & _ & Ht').
  rewrite Ht'. cbn -[pop_while].
  destruct (js_gt (level node) (level t')); [eauto|].
  destruct (pop_while_is_Some this' node (top :: below)) as [hs ->]; [|done..| |by eauto].
  - destruct (modify_deref _ _ _ _ Hf Hm [] this eq_refl) as (x & [= <-] & Hx).
    rewrite (level_header_of _ _ Hx). by apply is_document_level.
  - eapply Forall_impl; [exact Hall|]. intros r.
    exact (frame_ok_modify _ _ _ _ _ Hf Hm).
Qed.

Lemma top_sends_init : top_sends DocumentNode_init.
Proof. exists []. split; [done|]. by exists (ASTNode_new (ADocumentNode [])). Qed.

(** After an iteration the top of the stack is the node, when it is a
    header, and the old top otherwise. *)
Lemma step_top st node st' :
  DocumentNode_step st node = Some st' ->
  exists top' t',
    Stack.top st'.2 = Some top' /\ deref st'.1 top' = Some t' /\
    if isHeader node then t' = node
    else Stack.top st.2 = Some top' /\
         exists t, deref st.1 top' = Some t /\ header_of t' = header_of t.
Proof.
  destruct st as [this headers]. intros Hstep.
  destruct (DocumentNode_step_Some _ _ _ _ Hstep)
    as (top & below & this' & t' & -> & Hm & Ht' & Hcase).
  destruct (isHeader node) eqn:Hn.
  - destruct Hcase as (hs & -> & _).
    exists (top ++ [pred (length (children t'))]), node. split_and!; [done| |done].
    by eapply sent_header_deref.
  - subst st'. exists top, t'. split_and!; try done.
    destruct (modify_Some _ _ _ _ Hm) as (t & t'' & Ht & Hs & Ht'').
    rewrite Ht' in Ht''. injection Ht'' as <-.
    exists t. split; [done|]. by destruct (sendChild_appends node _ _ Hs).
Qed.

(** An iteration throws when the top of the stack has no method
    [sendChild]. *)
Lemma step_top_Some st node st' :
  DocumentNode_step st node = Some st' -> top_sends st.
Proof.
  destruct st as [this headers]. intros Hstep.
  destruct (DocumentNode_step_Some _ _ _ _ Hstep)
    as (top & below & this' & t' & -> & Hm & _ & _).
  destruct (modify_Some _ _ _ _ Hm) as (t & t'' & Ht & Hs & _).
  exists top. split; [done|]. exists t. split; [done|]. by eapply sendChild_Some.
Qed.

Lemma top_sends_step st node st' :
  top_sends st -> DocumentNode_step st node = Some st' ->
  bare_header node = false -> top_sends st'.
Proof.
  intros (top & Htop & t & Ht & Hs) Hstep Hbare.
  destruct (step_top _ _ _ Hstep) as (top' & t' & Htop' & Ht' & Hcase).
  exists top'. split; [done|]. exists t'. split; [done|].
  unfold bare_header in Hbare. destruct (isHeader node).
  - subst t'. by destruct (has_sendChild node).
  - destruct Hcase as (Htop'' & t0 & Ht0 & Heq).
    rewrite Htop in Htop''. injection Htop'' as <-.
    rewrite Ht in Ht0. injection Ht0 as <-.
    by rewrite (has_sendChild_header_of _ _ Heq).
Qed.

Lemma only_last_cons {A} (p : A -> bool) x l :
  only_last p (x :: l) = true <-> (p x = false \/ l = []) /\ only_last p l = true.
Proof.
  simpl. rewrite andb_true_iff, orb_true_iff, negb_true_iff.
  by destruct l; split; intros [[?|?] ?]; auto.
Qed.

Lemma only_last_Forall {A} (p : A -> bool) l :
  Forall (fun x => p x = false) l -> only_last p l = true.
Proof.
  induction 1 as [|x l Hx _ IH]; [done|]. apply only_last_cons. auto.
Qed.

Lemma foldM_step_is_Some nodes st :
  frames_ok st -> top_sends st ->
  Forall (fun n => nonneg_level n = true) nodes ->
  only_last bare_header nodes = true ->
  is_Some (foldM DocumentNode_step st nodes).
Proof.
  intros Hst Htop Hall. revert st Hst Htop.
  induction Hall as [|n nodes Hn _ IH]; intros st Hst Htop Hlast; [by eexists|].
  apply only_last_cons in Hlast as [Hbare Hlast].
  destruct (DocumentNode_step_is_Some st n Hst Htop Hn) as [st' Hst'].
  simpl. rewrite Hst'. simpl.
  destruct Hbare as [Hbare| ->]; [|by eexists].
  apply IH; [by eapply frames_ok_step|by eapply top_sends_step|done].
Qed.

(** The loop returns only when no header but the last node lacks the
    method. *)
Lemma foldM_step_only_last nodes st st' :
  foldM DocumentNode_step st nodes = Some st' ->
  only_last bare_header nodes = true.
Proof.
  revert st. induction nodes as [|n rest IH]; intros st H; [done|].
  rewrite foldM_cons in H.
  destruct (DocumentNode_step st n) as [st1|] eqn:Hstep; simpl in H; [|done].
  apply only_last_cons. split; [|by eapply IH].
  destruct rest as [|x rest]; [by right|left].
  rewrite foldM_cons in H.
  destruct (DocumentNode_step st1 x) as [st2|] eqn:Hstep2; simpl in H; [|done].
  destruct (step_top_Some _ _ _ Hstep2) as (top & Htop & t & Ht & Hs).
  destruct (step_top _ _ _ Hstep) as (top' & t' & Htop' & Ht' & Hcase).
  rewrite Htop in Htop'. injection Htop' as <-.
  rewrite Ht in Ht'. injection Ht' as <-.
  unfold bare_header. destruct (isHeader n); [|done].
  subst t. by rewrite Hs.
Qed.




(** ** Preamble and children of the document *)

Lemma before_first_header_split nodes :
  exists rest,
    nodes = before_first_header nodes ++ rest /\
    Forall (fun n => isHeader n = false) (before_first_header nodes) /\
    (rest = [] \/ exists h rest', rest = h :: rest' /\ isHeader h = true).
Proof.
  induction nodes as [|n nodes (rest & Heq & Hall & Hrest)]; simpl.
  - exists []. split_and!; [done|constructor|by left].
  - destruct (isHeader n) eqn:Hn.
    + exists (n :: nodes). split_and!; [done|constructor|right; eauto].
    + exists rest. split_and!; [by simpl; f_equal|by constructor|done].
Qed.

(** As long as no header has come, the document collects the nodes in its
    preamble and stays alone on the stack. *)
Lemma assemble_preamble pre acc :
  Forall (fun n => isHeader n = false) pre ->
  foldM DocumentNode_step (MkASTNode None [] (ADocumentNode acc), [[]]) pre =
  Some (MkASTNode None [] (ADocumentNode (acc ++ pre)), [[]]).
Proof.
  intros H. revert acc. induction H as [|n pre Hn _ IH]; intros acc; simpl.
  - by rewrite app_nil_r.
  - unfold sendChild. simpl. rewrite Hn. simpl. rewrite IH.
    by rewrite <- app_assoc.
Qed.

(** The first header becomes the only child of the document and the new top
    of the stack. *)
Lemma assemble_first_header pre h st :
  isHeader h = true ->
  DocumentNode_step (MkASTNode None [] (ADocumentNode pre), [[]]) h = Some st ->
  st = (MkASTNode None [h] (ADocumentNode pre), [[0%nat]; []]).
Proof.
  intros Hh. unfold DocumentNode_step, sendChild. cbn -[pop_while]. rewrite Hh.
  cbn -[pop_while]. destruct (js_gt (level h) (Some 0)); [by intros [= <-]|].
  cbn. destruct (level h) as [y|]; [destruct (bool_decide (y < 0))|]; cbn;
    [done|by intros [= <-]..].
Qed.

Lemma modify_cons f this i r this' :
  modify f this (i :: r) = Some this' ->
  exists c c',
    children this !! i = Some c /\ modify f c r = Some c' /\
    this' = set_children (<[i := c']> (children this)) this.
Proof.
  simpl. destruct (children this !! i) as [c|]; simpl; [|done].
  destruct (modify f c r) as [c'|] eqn:Hm; simpl; [|done].
  intros [= <-]. by exists c, c'.
Qed.

Lemma below_document_step pre st node st' :
  below_document pre st -> DocumentNode_step st node = Some st' ->
  below_document pre st'.
Proof.
  destruct st as [this headers]. intros (Hpre & Hch & i & r & below & Hst) Hstep.
  cbn [fst snd] in *. subst headers.
  destruct (DocumentNode_step_Some _ _ _ _ Hstep)
    as (top & below' & this' & t & [= <- <-] & Hm & Ht & Hcase).
  destruct (modify_cons _ _ _ _ _ Hm) as (c & c' & Hc & Hm' & ->).
  assert (Hc' : isHeader c' = true).
  { destruct (modify_deref _ _ _ _ (sendChild_appends node) Hm' [] c eq_refl)
      as (x & [= <-] & Hx).
    rewrite (isHeader_header_of _ _ Hx).
    by eapply (Forall_lookup_1 _ _ _ _ Hch). }
  assert (Hch' : Forall (fun n => isHeader n = true) (<[i:=c']> (children this))).
  { by apply Forall_insert. }
  destruct (isHeader node).
  - destruct Hcase as (hs & -> & _). split_and!; [done..|]. simpl. eauto.
  - subst st'. split_and!; [done..|]. simpl. eauto.
Qed.

Lemma assemble_nodes nodes st :
  foldM DocumentNode_step DocumentNode_init nodes = Some st ->
  preamble st.1 = before_first_header nodes /\
  Forall (fun n => isHeader n = true) (children st.1).
Proof.
  destruct (before_first_header_split nodes) as (rest & Heq & Hpre & Hrest).
  set (pre := before_first_header nodes) in *. clearbody pre.
  rewrite Heq, foldM_app.
  pose proof (assemble_preamble pre [] Hpre) as Hp.
  change (foldM DocumentNode_step DocumentNode_init pre = Some
            (MkASTNode None [] (ADocumentNode pre), [[]])) in Hp.
  rewrite Hp. cbn [mbind option_bind app].
  destruct Hrest as [->|(h & rest' & -> & Hh)].
  - intros [= <-]. by split.
  - cbn [foldM].
    destruct (DocumentNode_step _ h) as [st1|] eqn:H1; cbn [mbind option_bind];
      [|done].
    apply (assemble_first_header _ _ _ Hh) in H1. subst st1. intros H.
    assert (Hinv : below_document pre st).
    { eapply foldM_invariant; [|  |exact H].
      - intros s x s'. apply below_document_step.
      - split_and!; [done|by repeat constructor|]. simpl. eauto. }
    by destruct Hinv as (? & ? & _).
Qed.

(** C8: in the document the constructor returns, the preamble holds, in
    order, the loaded nodes that come before the first header (a node with a
    level), none of them is in [children], and [children] holds headers only. *)
Theorem preamble_separation (l : list ASTObject) (doc : ASTNode) :
  DocumentNode_new l = Some doc ->
  exists nodes,
    mapM loadNode l = Some nodes /\
    preamble doc = before_first_header nodes /\
    Forall (fun n => n ∉ children doc) (before_first_header nodes) /\
    Forall (fun n => isHeader n = true) (children doc).
Proof.
  unfold DocumentNode_new. intros H.
  destruct (DocumentNode_assemble l) as [st|] eqn:Hst; simpl in H; [|done].
  injection H as <-. unfold DocumentNode_assemble in Hst.
  destruct (assemble_Some_loaded _ _ _ Hst) as [nodes Hnodes].
  rewrite (assemble_loaded _ _ _ Hnodes) in Hst.
  destruct (assemble_nodes _ _ Hst) as [Hpre Hch].
  exists nodes. split_and!; try done.
  destruct (before_first_header_split nodes) as (_ & _ & Hnh & _).
  eapply Forall_impl; [exact Hnh|]. intros n Hn Hin.
  rewrite Forall_forall in Hch. apply Hch in Hin. congruence.
Qed.

Lemma preamble_separation_witness :
  exists nodes,
    mapM loadNode [paragraph "intro"; heading 1 "A"; paragraph "body"] = Some nodes /\
    preamble (MkASTNode None [heading_node 1 "A" [paragraph_node "body"]]
                (ADocumentNode [paragraph_node "intro"])) =
    before_first_header nodes.
Proof.
  destruct (preamble_separation
              [paragraph "intro"; heading 1 "A"; paragraph "body"]
              (MkASTNode None [heading_node 1 "A" [paragraph_node "body"]]
                 (ADocumentNode [paragraph_node "intro"])))
    as (nodes & Hn & Hp & _).
  - reflexivity.
  - exists nodes. split; assumption.
Defined.

(** ** The loader *)

Lemma loadNode_default obj :
  NodeTypes_get (property_key (element obj)) = None ->
  loadNode obj = Some (MkASTNode (Some "default_node") [] AnASTNode).
Proof. destruct obj as [s|e f c]; simpl; [done|]. by intros ->. Qed.

(** [typename] is the tag when the registry reads anything for it. *)
Lemma loadNode_typename e f c n :
  loadNode (Object e f c) = Some n ->
  typename n = Some (match NodeTypes_get e with
                     | Some _ => e
                     | None => "default_node"
                     end).
Proof.
  simpl. destruct (NodeTypes_get e) as [[ctor| |]|]; simpl.
  - destruct (match ctor with DocumentNode => _ | _ => _ end) as [node|]; simpl;
      [by intros [= <-]|done].
  - by intros [= <-].
  - done.
  - by intros [= <-].
Qed.

Lemma loadNode_level obj n : loadNode obj = Some n -> level n = loaded_level obj.
Proof.
  destruct obj as [s|e f c]; simpl; [by intros [= <-]|].
  destruct (NodeTypes_get e) as [[ctor| |]|]; simpl;
    [|by intros [= <-]|done|by intros [= <-]].
  destruct ctor; try (by intros [= <-]);
    destruct c as [s|l]; simpl; try done.
  - change (foldM _ DocumentNode_init l) with (DocumentNode_assemble l).
    destruct (DocumentNode_assemble l) as [st|] eqn:Hst; simpl; [|done].
    intros [= <-]. destruct (frames_ok_assemble _ _ Hst) as (Hdoc & _).
    by apply is_document_level in Hdoc.
  - destruct (mapM loadNode l); simpl; [by intros [= <-]|done].
  - destruct (mapM loadNode l); simpl; [by intros [= <-]|done].
Qed.


Lemma sends_not_bare ty t :
  has_sendChild t = true -> bare_header (set_typename ty t) = false.
Proof.
  intros Ht. unfold bare_header.
  change (has_sendChild (set_typename ty t)) with (has_sendChild t).
  rewrite Ht. apply andb_false_r.
Qed.

(** A loaded node is a header without the method [sendChild] exactly when it
    is a flat object with a level. *)
Lemma loadNode_bare_header obj n :
  loadNode obj = Some n -> bare_header n = loads_bare_header obj.
Proof.
  destruct obj as [s|e f c]; simpl; [by intros [= <-]|].
  destruct (NodeTypes_get e) as [[ctor| |]|]; simpl;
    [| |done|by intros [= <-]].
  - destruct ctor; try (by intros [= <-]);
      destruct c as [s|l]; simpl; try done.
    + destruct (foldM _ DocumentNode_init l) as [st|] eqn:Hst; simpl; [|done].
      intros [= <-].
      destruct (frames_ok_assemble l st Hst) as (Hdoc & _).
      apply sends_not_bare. by apply is_document_has_sendChild.
    + destruct (mapM loadNode l); simpl; [|done]. intros [= <-].
      unfold bare_header. simpl. apply andb_false_r.
    + destruct (mapM loadNode l); simpl; [by intros [= <-]|done].
  - intros [= <-]. unfold bare_header, isHeader, level. simpl.
    by destruct (obj_level f) as [lvl|].
Qed.

Lemma loadNode_well_formed obj :
  well_formed obj = true ->
  exists n, loadNode obj = Some n /\ nonneg_level n = true /\ bare_header n = false.
Proof.
  induction obj as [s|e f s|e f l IH] using ASTObject_nested_ind; intros Hwf.
  - by eexists.
  - simpl in *. apply andb_true_iff in Hwf as [Hwf He].
    apply bool_decide_eq_true in He. rewrite (NodeTypes_get_own _ He).
    destruct (NodeTypes !! e) as [ctor|] eqn:H; [|by eexists].
    registry_cases H; try done; by eexists.
  - simpl in Hwf. apply andb_true_iff in Hwf as [Hwf He].
    apply andb_true_iff in Hwf as [Hl Hlvl]. apply bool_decide_eq_true in He.
    assert (Hnodes : exists nodes, mapM loadNode l = Some nodes /\
                       Forall (fun n => nonneg_level n = true) nodes /\
                       Forall (fun n => bare_header n = false) nodes).
    { clear Hlvl. induction IH as [|x l Hx _ IHl]; simpl in *; [by eexists|].
      apply andb_true_iff in Hl as [Hwx Hwl].
      destruct (Hx Hwx) as (n & -> & Hn & Hb).
      destruct (IHl Hwl) as (nodes & -> & Hns & Hbs).
      eexists. split; [done|]. split; by constructor. }
    destruct Hnodes as (nodes & Hnodes & Hnn & Hbare). simpl.
    rewrite (NodeTypes_get_own _ He).
    destruct (NodeTypes !! e) as [ctor|] eqn:H; [|by eexists].
    registry_cases H; simpl; rewrite ?Hnodes; try (by eexists);
      try (by eexists; split_and!; try done; unfold bare_header; simpl;
              apply andb_false_r).
    change (foldM _ DocumentNode_init l) with (foldM load_step DocumentNode_init l).
    rewrite (assemble_loaded _ _ _ Hnodes).
    destruct (foldM_step_is_Some nodes DocumentNode_init frames_ok_init
                top_sends_init Hnn (only_last_Forall _ _ Hbare))
      as [st Hst].
    rewrite Hst. simpl. eexists. split; [done|].
    pose proof (foldM_invariant _ frames_ok _ _ _ frames_ok_step frames_ok_init Hst)
      as (Hdoc & _).
    split; [|by apply sends_not_bare, is_document_has_sendChild].
    apply is_document_level in Hdoc. unfold nonneg_level, level in *.
    simpl. by rewrite Hdoc.
Qed.

(** The document constructor returns on every sequence of well-formed flat
    nodes. *)
Lemma DocumentNode_new_well_formed l :
  forallb well_formed l = true -> is_Some (DocumentNode_new l).
Proof.
  intros Hl.
  destruct (loadNode_well_formed (Object "document" no_fields (Items l)))
    as (n & Hn & _).
  { simpl. by rewrite Hl. }
  simpl in Hn. change (foldM _ DocumentNode_init l) with (DocumentNode_assemble l) in Hn.
  unfold DocumentNode_new. destruct (DocumentNode_assemble l); [by eexists|done].
Qed.

(** C5 (as amended): a flat node whose tag is neither registered nor the
    name of a member of [Object.prototype] is loaded by the default
    constructor and gets the type name "default_node", without failure; for a
    registered tag the node [loadNode] returns has the tag as its type name;
    and [loadNode] does return when the flat node is well formed (no tag the
    name of a member of [Object.prototype], arrays where a constructor
    iterates [children], no heading of negative level). *)
Theorem loadNode_dispatch (obj : ASTObject) :
  (registered (property_key (element obj)) = false ->
   property_key (element obj) ∉ Object_prototype ->
     loadNode obj = Some (MkASTNode (Some "default_node") [] AnASTNode)) /\
  (registered (property_key (element obj)) = true ->
     forall n, loadNode obj = Some n -> typename n = element obj) /\
  (well_formed obj = true -> is_Some (loadNode obj)).
Proof.
  split_and!.
  - intros H Hp. apply loadNode_default. rewrite (NodeTypes_get_own _ Hp).
    apply bool_decide_eq_false in H. apply eq_None_not_Some in H. by rewrite H.
  - destruct obj as [s|e f c]; [done|]. simpl. intros H n Hn.
    apply NodeTypes_get_registered in H as [ctor H].
    apply loadNode_typename in Hn. by rewrite H in Hn.
  - intros H. destruct (loadNode_well_formed _ H) as (n & -> & _). by eexists.
Qed.

Lemma loadNode_dispatch_witness :
  loadNode (Object "hline" no_fields (Items [])) =
    Some (MkASTNode (Some "default_node") [] AnASTNode) /\
  (forall n, loadNode (paragraph "text") = Some n -> typename n = Some "paragraph") /\
  is_Some (loadNode (Object "document" no_fields
                       (Items [paragraph "intro"; heading 1 "A"]))).
Proof.
  split_and!.
  - apply (loadNode_dispatch (Object "hline" no_fields (Items [])));
      [reflexivity|intros Hin; not_in_list Hin].
  - apply (loadNode_dispatch (paragraph "text")). reflexivity.
  - apply (loadNode_dispatch (Object "document" no_fields
                                (Items [paragraph "intro"; heading 1 "A"]))).
    reflexivity.
Defined.

(** What [loadNode] does on the tags that name a member of
    [Object.prototype]: it returns the flat object for "constructor" and
    throws for every other one. *)
Lemma loadNode_inherited (e : string) (f : Fields) (c : Children ASTObject) :
  e ∈ Object_prototype ->
  loadNode (Object e f c) =
    if bool_decide (e = "constructor")
    then Some (MkASTNode (Some "constructor") [] (AnObject f c))
    else None.
Proof.
  intros Hin. simpl. pose proof (NodeTypes_get_spec e) as H.
  destruct (NodeTypes_get e) as [[ctor| |]|].
  - exfalso. revert Hin. registry_cases H; intros Hin; not_in_list Hin.
  - by destruct H as [_ ->].
  - destruct H as (_ & _ & Hne). by rewrite bool_decide_eq_false_2.
  - by destruct H.
Qed.

(** C5, counterexample: [loadNode] is not total, and a tag that is not
    registered does not always give the default node.  On a document whose
    heading has level -1 the loop pops the document off the stack and the
    next read of [headers.top.level] throws.  The tag "toString" is not
    registered, but the registry reads the method of [Object.prototype] for
    it, which [new] refuses: [loadNode] throws.  The tag "constructor" is
    not registered either, and [loadNode] returns the flat object with the
    type name "constructor". *)
Lemma loadNode_not_total :
  registered "document" = true /\
  loadNode (Object "document" no_fields (Items [heading (-1) "A"])) = None /\
  registered "toString" = false /\
  loadNode (Object "toString" no_fields (Items [])) = None /\
  registered "constructor" = false /\
  loadNode (flat_object None) = Some (object_node None) /\
  typename (object_node None) = Some "constructor".
Proof. split_and!; reflexivity. Qed.

(** ** Headers and the stack *)









(** The level 0 of a document is that of its class: a document loaded as a
    child is a header as well and is pushed on the stack of the enclosing
    document. *)
Lemma nested_document_is_pushed :
  element (Object "document" no_fields (Items [])) <> Some "heading" /\
  loadNode (Object "document" no_fields (Items [])) =
    Some (MkASTNode (Some "document") [] (ADocumentNode [])) /\
  isHeader (MkASTNode (Some "document") [] (ADocumentNode [])) = true /\
  DocumentNode_assemble [Object "document" no_fields (Items [])] =
    Some (MkASTNode None [MkASTNode (Some "document") [] (ADocumentNode [])]
            (ADocumentNode []),
          [[0%nat]; []]).
Proof. split_and!; [discriminate|reflexivity..]. Qed.

(** ** Headings of equal or shallower level *)

(** Whatever its level, a header is stored as the last child of the frame
    that is on top of the stack when it comes. *)
Lemma header_sent_to_top this headers node st' :
  isHeader node = true ->
  DocumentNode_step (this, headers) node = Some st' ->
  exists top t t',
    Stack.top headers = Some top /\
    deref this top = Some t /\
    deref st'.1 top = Some t' /\
    children t' = children t ++ [node].
Proof.
  intros Hn Hstep.
  destruct (DocumentNode_step_Some _ _ _ _ Hstep)
    as (top & below & this' & t' & -> & Hm & Ht' & Hcase).
  rewrite Hn in Hcase. destruct Hcase as (hs & -> & _).
  destruct (modify_Some _ _ _ _ Hm) as (t & t'' & Ht & Hs & Ht'').
  rewrite Ht' in Ht''. injection Ht'' as <-.
  destruct (sendChild_header _ _ _ Hn Hs) as [Hch _].
  by exists top, t, t'.
Qed.

(** What the loop builds, for every sequence: each node becomes a child of
    the nearest header before it, whatever the levels. *)

Lemma set_children_id n : set_children (children n) n = n.
Proof. by destruct n. Qed.

Lemma modify_id this r t : deref this r = Some t -> modify Some this r = Some this.
Proof.
  revert this. induction r as [|i r IH]; intros this H; simpl in *; [done|].
  destruct (children this !! i) as [c|] eqn:Hc; simpl in *; [|done].
  rewrite (IH _ H). simpl. by rewrite list_insert_id, set_children_id.
Qed.

Lemma modify_ext f g this r t :
  deref this r = Some t -> f t = g t -> modify f this r = modify g this r.
Proof.
  revert this. induction r as [|i r IH]; intros this H Hfg; simpl in *.
  - by injection H as ->.
  - destruct (children this !! i) as [c|]; simpl in *; [|done].
    by rewrite (IH _ H Hfg).
Qed.

Lemma modify_twice f g this r this1 :
  modify g this r = Some this1 ->
  modify f this1 r = modify (fun t => t1 ← g t; f t1) this r.
Proof.
  revert this this1. induction r as [|i r IH]; intros this this1 H; simpl in *.
  - by rewrite H.
  - destruct (children this !! i) as [c|] eqn:Hc; simpl in *; [|done].
    destruct (modify g c r) as [c1|] eqn:Hm; simpl in *; [|done].
    injection H as <-. simpl.
    rewrite list_lookup_insert_eq by (by eapply lookup_lt_Some). simpl.
    rewrite (IH _ _ Hm).
    destruct (modify (fun t => t1 ← g t; f t1) c r) as [c2|]; simpl; [|done].
    by rewrite list_insert_insert_eq.
Qed.

Lemma modify_app f this r1 r2 :
  modify f this (r1 ++ r2) = modify (fun t => modify f t r2) this r1.
Proof.
  revert this. induction r1 as [|i r1 IH]; intros this; simpl; [done|].
  destruct (children this !! i) as [c|]; simpl; [|done]. by rewrite IH.
Qed.

Lemma adopt_header_of t x : header_of (adopt t x) = header_of t.
Proof.
  unfold adopt. destruct (sendChild t x) as [t'|] eqn:H; simpl; [|done].
  by destruct (sendChild_appends x _ _ H).
Qed.

Lemma foldl_adopt_header_of t xs : header_of (foldl adopt t xs) = header_of t.
Proof.
  revert t. induction xs as [|x xs IH]; intros t; simpl; [done|].
  by rewrite IH, adopt_header_of.
Qed.

Lemma sendChild_adopt t x :
  has_sendChild t = true -> sendChild t x = Some (adopt t x).
Proof.
  intros H. unfold adopt. by destruct (sendChild_is_Some t x H) as [t' ->].
Qed.

Lemma sendChild_header_eq t x t1 :
  isHeader x = true -> sendChild t x = Some t1 ->
  t1 = set_children (children t ++ [x]) t.
Proof.
  unfold sendChild. intros ->. destruct (inst t); try done; by intros [= <-].
Qed.

Lemma assemble_nest nodes this top below st' t :
  deref this top = Some t -> has_sendChild t = true ->
  foldM DocumentNode_step (this, top :: below) nodes = Some st' ->
  modify (fun t => Some (foldl adopt t (nest nodes))) this top = Some st'.1.
Proof.
  revert this top below t.
  induction nodes as [|n rest IH]; intros this top below t Ht Hh H.
  - injection H as <-. exact (modify_id _ _ _ Ht).
  - rewrite foldM_cons in H.
    destruct (DocumentNode_step (this, top :: below) n) as [st1|] eqn:Hstep;
      simpl in H; [|done].
    destruct (DocumentNode_step_Some _ _ _ _ Hstep)
      as (top' & below' & this1 & t1 & [= <- <-] & Hm & Ht1 & Hcase).
    destruct (modify_Some _ _ _ _ Hm) as (t0 & t1' & Ht0 & Hs & Ht1').
    rewrite Ht in Ht0. injection Ht0 as <-.
    rewrite Ht1 in Ht1'. injection Ht1' as <-.
    assert (Hh1 : has_sendChild t1 = true).
    { destruct (sendChild_appends n _ _ Hs) as [Heq _].
      by rewrite (has_sendChild_header_of _ _ Heq). }
    simpl. destruct (isHeader n) eqn:Hn.
    + destruct Hcase as (hs & -> & _).
      pose proof (sent_header_deref _ _ _ _ _ Hn Hm Ht1) as Hr.
      assert (Hrest : modify (fun t => Some (foldl adopt t (nest rest))) this1
                        (top ++ [pred (length (children t1))]) = Some st'.1).
      { destruct (has_sendChild n) eqn:Hsn; [exact (IH _ _ _ _ Hr Hsn H)|].
        destruct rest as [|x rest].
        - injection H as <-. exact (modify_id _ _ _ Hr).
        - exfalso. rewrite foldM_cons in H.
          destruct (DocumentNode_step _ x) as [st2|] eqn:Hstep2; [|done].
          destruct (step_top_Some _ _ _ Hstep2) as (r & [= <-] & y & Hy & Hsy).
          cbn [fst] in Hy. rewrite Hr in Hy. injection Hy as <-. congruence. }
      rewrite <- Hrest.
      rewrite modify_app, (modify_twice _ _ _ _ _ Hm).
      apply (modify_ext _ _ _ _ _ Ht). rewrite Hs. simpl.
      destruct (sendChild_header _ _ _ Hn Hs) as [Hch Hinst].
      rewrite Hch, length_app, Nat.add_1_r. simpl.
      rewrite lookup_app_r by done. rewrite Nat.sub_diag. simpl.
      assert (Hn' : isHeader (foldl adopt n (nest rest)) = true).
      { by rewrite (isHeader_header_of _ _ (foldl_adopt_header_of n (nest rest))). }
      rewrite (insert_app_r_alt _ _ _ _ (le_n _)), Nat.sub_diag. simpl.
      f_equal. rewrite (sendChild_header_eq _ _ _ Hn Hs).
      pose proof (sendChild_adopt t (foldl adopt n (nest rest)) Hh) as Ha.
      by rewrite (sendChild_header_eq _ _ _ Hn' Ha).
    + subst st1.
      rewrite <- (IH _ _ _ _ Ht1 Hh1 H).
      rewrite (modify_twice _ _ _ _ _ Hm).
      apply (modify_ext _ _ _ _ _ Ht). rewrite Hs. simpl.
      by rewrite (sendChild_adopt _ n Hh) in Hs; injection Hs as <-.
Qed.

(** The document the constructor returns is the chain of [nest]. *)
Lemma DocumentNode_new_nest l doc :
  DocumentNode_new l = Some doc ->
  exists nodes,
    mapM loadNode l = Some nodes /\
    doc = foldl adopt (ASTNode_new (ADocumentNode [])) (nest nodes).
Proof.
  unfold DocumentNode_new. intros H.
  destruct (DocumentNode_assemble l) as [st|] eqn:Hst; simpl in H; [|done].
  injection H as <-. unfold DocumentNode_assemble in Hst.
  destruct (assemble_Some_loaded _ _ _ Hst) as [nodes Hnodes].
  rewrite (assemble_loaded _ _ _ Hnodes) in Hst.
  exists nodes. split; [done|].
  pose proof (assemble_nest nodes (ASTNode_new (ADocumentNode [])) [] [] _ _
                eq_refl eq_refl Hst) as H.
  simpl in H. by injection H as <-.
Qed.

Lemma nest_headers nodes :
  (length (filter (fun n => isHeader n = true) (nest nodes)) <= 1)%nat.
Proof.
  induction nodes as [|n rest IH]; simpl; [lia|].
  destruct (isHeader n) eqn:Hn.
  - rewrite filter_cons. destruct (decide _); simpl; lia.
  - by rewrite filter_cons_False by (by rewrite Hn).
Qed.

Lemma foldl_adopt_document doc xs :
  is_document doc = true ->
  children (foldl adopt doc xs) =
    children doc ++ filter (fun n => isHeader n = true) xs.
Proof.
  revert doc. induction xs as [|x xs IH]; intros doc Hdoc; simpl.
  - by rewrite app_nil_r.
  - assert (Hdoc' : is_document (adopt doc x) = true).
    { by rewrite (is_document_header_of _ _ (adopt_header_of doc x)). }
    rewrite (IH _ Hdoc'). unfold adopt, sendChild.
    unfold is_document in Hdoc. destruct (inst doc); try done.
    destruct (isHeader x) eqn:Hx; simpl.
    + rewrite filter_cons_True by done. by rewrite <- app_assoc.
    + by rewrite filter_cons_False by (by rewrite Hx).
Qed.

(** A document never gets a second child. *)
Lemma document_children_at_most_one l doc :
  DocumentNode_new l = Some doc -> (length (children doc) <= 1)%nat.
Proof.
  intros H. destruct (DocumentNode_new_nest _ _ H) as (nodes & _ & ->).
  rewrite foldl_adopt_document by done. simpl. apply nest_headers.
Qed.

Lemma foldl_adopt_heading h xs :
  has_sendChild h = true -> is_document h = false ->
  children (foldl adopt h xs) = children h ++ xs.
Proof.
  revert h. induction xs as [|x xs IH]; intros h Hh Hdoc; simpl.
  - by rewrite app_nil_r.
  - pose proof (adopt_header_of h x) as Heq.
    rewrite (IH (adopt h x)).
    + unfold adopt, sendChild. unfold has_sendChild in Hh.
      unfold is_document in Hdoc. destruct (inst h); try done.
      simpl. by rewrite <- app_assoc.
    + by rewrite (has_sendChild_header_of _ _ Heq).
    + by rewrite (is_document_header_of _ _ Heq).
Qed.

(** C1: scenario B.  The heading B, of the level of A, is sent to A while A
    is the top of the stack: the document has the one child A and B is the
    child of A.  The loop pops only frames of a level greater than that of
    the new heading, so that A stays on the stack, under B. *)
Theorem equal_level_heading_is_nested :
  DocumentNode_assemble [heading 1 "A"; heading 1 "B"] =
  Some (MkASTNode None [heading_node 1 "A" [heading_node 1 "B" []]]
          (ADocumentNode []),
        [[0; 0]; [0]; []]%nat).
Proof. reflexivity. Qed.

(** C2: a heading of level 1 that follows a heading of level 2 becomes its
    child: the level of the parent is not less than that of the child. *)
Theorem shallower_heading_under_deeper :
  DocumentNode_new [heading 2 "A"; paragraph "text"; heading 1 "B"] =
    Some (MkASTNode None
            [heading_node 2 "A" [paragraph_node "text"; heading_node 1 "B" []]]
            (ADocumentNode [])) /\
  level (heading_node 2 "A" [paragraph_node "text"; heading_node 1 "B" []]) = Some 2 /\
  level (heading_node 1 "B" []) = Some 1.
Proof. split_and!; reflexivity. Qed.

(** ** Directives *)

Lemma fromEntries_snoc entries k v :
  fromEntries (entries ++ [(k, v)]) = <[property_key k := v]> (fromEntries entries).
Proof. unfold fromEntries. by rewrite foldl_snoc. Qed.

(** The expression of the constructor, on an array of loaded children: the
    last option of a key gives its value, other children are skipped. *)
Lemma DirectiveNode_options_snoc_option children k v :
  DirectiveNode_options (children ++ [option_node k v]) =
  <[k := Some v]> (DirectiveNode_options children).
Proof.
  unfold DirectiveNode_options. rewrite filter_app, map_app.
  rewrite filter_cons_True by done. simpl. by rewrite fromEntries_snoc.
Qed.

Lemma DirectiveNode_options_snoc_other children child :
  instanceof_DirectiveOptionNode child = false ->
  DirectiveNode_options (children ++ [child]) = DirectiveNode_options children.
Proof.
  intros H. unfold DirectiveNode_options. rewrite filter_app.
  rewrite filter_cons_False by (by rewrite H). by rewrite filter_nil, app_nil_r.
Qed.

(** C3: scenario D.  The directive constructor reads [this.children], which
    is the empty array of [ASTNode]: [obj.children] is never loaded, and the
    options of the loaded directive are empty.  On the loaded option node the
    same expression gives the mapping of the key to the value. *)
Theorem directive_options_empty :
  loadNode (directive_block "note" [directive_option "key" "value"]) =
    Some (MkASTNode (Some "directive_block") []
            (ADirectiveNode (Some "note") None ∅)) /\
  loadNode (directive_option "key" "value") = Some (option_node "key" "value") /\
  DirectiveNode_options [option_node "key" "value"] = {[ "key" := Some "value" ]}.
Proof. split_and!; reflexivity. Qed.

(** C4: whatever the flat children of a directive are, the loaded directive
    has no children (and no options). *)
Theorem directive_children_empty (fields : Fields) (flat : Children ASTObject) :
  exists n,
    loadNode (Object "directive_block" fields flat) = Some n /\
    children n = [] /\
    options n = Some ∅.
Proof. by eexists. Qed.

(** ** The ESCAPE terminal *)

(** C7: for each of the seven reserved punctuation characters X, the source
    that starts with a backtick and X matches ESCAPE; the lexeme is the two
    characters backtick and X, the rest of the source is untouched, and the
    literal of the lexeme is the one character X. *)
Theorem ESCAPE_reserved :
  Forall (fun X =>
            forall rest,
              ESCAPE (String "`" (String X rest)) =
                Some (String "`" (chr X), rest) /\
              String.length (String "`" (chr X)) = 2%nat /\
              ESCAPE_literal (String "`" (chr X)) = chr X)
    reserved_punctuation.
Proof. repeat constructor. Qed.

Lemma strip_prefix_Some p s rest :
  strip_prefix p s = Some rest -> s = String.append p rest.
Proof.
  revert s. induction p as [|a p IH]; intros s; simpl; [by intros [= ->]|].
  destruct s as [|b s]; [done|].
  destruct (Ascii.eqb a b) eqn:E; [|done]. apply Ascii.eqb_eq in E as ->.
  intros H. by rewrite (IH _ H).
Qed.

Lemma lit_Some p s x : lit p s = Some x -> x.1 = p /\ s = String.append p x.2.
Proof.
  unfold lit. destruct (strip_prefix p s) as [rest|] eqn:H; simpl; [|done].
  intros [= <-]. split; [done|]. by apply strip_prefix_Some.
Qed.

Lemma alt_Some a b s x : alt a b s = Some x -> a s = Some x \/ b s = Some x.
Proof. unfold alt. destruct (a s); auto. Qed.

Lemma seq_Some a b s x :
  seq a b s = Some x ->
  exists y z, a s = Some y /\ b y.2 = Some z /\ x = (String.append y.1 z.1, z.2).
Proof.
  unfold seq. destruct (a s) as [y|]; simpl; [|done].
  destruct (b y.2) as [z|] eqn:Hz; simpl; [|done]. intros [= <-].
  exists y, z. by split_and!.
Qed.

Lemma RESERVED_PUNCTUATION_Some s x :
  RESERVED_PUNCTUATION s = Some x ->
  exists X, X ∈ reserved_punctuation /\ x.1 = chr X /\ s = String X x.2.
Proof.
  unfold RESERVED_PUNCTUATION, reserved_punctuation. intros H.
  repeat (apply alt_Some in H as [H|H]);
    apply lit_Some in H as [-> ->]; eexists; (split; [|done]); set_solver.
Qed.

(** Every match of ESCAPE is a prefix of the source, of two characters, the
    second of which is a reserved punctuation character. *)
Lemma ESCAPE_Some s lexeme rest :
  ESCAPE s = Some (lexeme, rest) ->
  exists X, X ∈ reserved_punctuation /\ lexeme = String "`" (chr X) /\
            s = String.append lexeme rest.
Proof.
  unfold ESCAPE. intros H.
  apply seq_Some in H as (y & z & Hy & Hz & [= -> ->]).
  apply lit_Some in Hy as [Hy1 ->].
  apply RESERVED_PUNCTUATION_Some in Hz as (X & HX & Hz1 & Hz2).
  exists X. rewrite Hy1, Hz1, Hz2. by split_and!.
Qed.

(** ** When the loader and the document constructor return *)

Lemma frame_level_modify f this r this' r' lvl :
  appends f -> modify f this r = Some this' ->
  frame_level this r' = Some lvl -> frame_level this' r' = Some lvl.
Proof.
  intros Hf Hm. unfold frame_level.
  destruct (deref this r') as [x|] eqn:Hx; simpl; [|done]. intros Hl.
  destruct (modify_deref _ _ _ _ Hf Hm _ _ Hx) as (x' & -> & Heq). simpl.
  by rewrite (level_header_of _ _ Heq).
Qed.

Lemma Sorted_app_r {A} (R : A -> A -> Prop) l1 l2 :
  Sorted R (l1 ++ l2) -> Sorted R l2.
Proof.
  induction l1 as [|x l1 IH]; simpl; [done|]. intros H.
  apply Sorted_inv in H as [H _]. auto.
Qed.

Lemma levels_ok_init : levels_ok DocumentNode_init.
Proof. exists [0]. split_and!; [by repeat constructor|by repeat constructor|done]. Qed.

Lemma levels_ok_step st node st' :
  levels_ok st -> DocumentNode_step st node = Some st' -> levels_ok st'.
Proof.
  destruct st as [this headers]. intros (levels & Hall & Hsort & Hlast) Hstep.
  cbn [fst snd] in *.
  destruct (DocumentNode_step_Some _ _ _ _ Hstep)
    as (top & below & this' & t & -> & Hm & Ht & Hcase).
  pose proof (sendChild_appends node) as Hf.
  assert (Hall' : Forall2 (fun r lvl => frame_level this' r = Some lvl)
                    (top :: below) levels).
  { eapply Forall2_impl; [exact Hall|]. intros r lvl.
    exact (frame_level_modify _ _ _ _ _ _ Hf Hm). }
  destruct (isHeader node) eqn:Hn.
  - destruct Hcase as (hs & -> & Hcase).
    pose proof (sent_header_deref _ _ _ _ _ Hn Hm Ht) as Hr.
    unfold isHeader in Hn. destruct (level node) as [l|] eqn:Hl; [|done].
    assert (Hnew : frame_level this' (top ++ [pred (length (children t))]) = Some l).
    { unfold frame_level. by rewrite Hr. }
    destruct (js_gt (Some l) (level t)) eqn:Hgt.
    + subst hs. exists (l :: levels). cbn [fst snd]. split_and!.
      * by constructor.
      * constructor; [done|].
        apply Forall2_cons_inv_l in Hall' as (lt & levels' & Hlt & _ & ->).
        constructor. unfold frame_level in Hlt. rewrite Ht in Hlt. simpl in Hlt.
        rewrite Hlt in Hgt. simpl in Hgt. apply bool_decide_eq_true in Hgt.
        unfold deeper_or_equal. lia.
      * destruct levels; [by apply Forall2_nil_inv_r in Hall'|done].
    + destruct (pop_while_Some _ _ _ _ Hcase)
        as (popped & top' & below' & t' & Heq & -> & Ht' & Hlt & _).
      rewrite Heq in Hall'.
      apply Forall2_app_inv_l in Hall' as (lp & lr & Hp & Hr' & ->).
      exists (l :: lr). cbn [fst snd]. split_and!.
      * by constructor.
      * constructor; [by apply Sorted_app_r in Hsort|].
        apply Forall2_cons_inv_l in Hr' as (lt' & lr' & Hlt' & _ & ->).
        constructor. unfold frame_level in Hlt'. rewrite Ht' in Hlt'. simpl in Hlt'.
        rewrite Hlt', Hl in Hlt. unfold js_lt, js_gt in Hlt.
        apply bool_decide_eq_false in Hlt. unfold deeper_or_equal. lia.
      * apply Forall2_cons_inv_l in Hr' as (lt' & lr' & _ & _ & ->).
        rewrite last_cons_cons. by apply last_suffix in Hlast.
  - subst st'. by exists levels.
Qed.

Lemma Sorted_last_le levels l :
  Sorted deeper_or_equal levels -> last levels = Some 0 -> l ∈ levels -> 0 <= l.
Proof.
  intros Hs Hlast. revert l. apply Forall_forall.
  induction Hs as [|a levels Hs IH Hhd]; [constructor|].
  destruct levels as [|b levels].
  - injection Hlast as ->. by repeat constructor.
  - rewrite last_cons_cons in Hlast. specialize (IH Hlast).
    constructor; [|done]. apply Forall_cons in IH as [Hb _].
    apply HdRel_inv in Hhd. unfold deeper_or_equal in Hhd. lia.
Qed.

Lemma pop_while_None this node headers :
  Forall (fun r => exists x, deref this r = Some x /\
                             js_lt (level node) (level x) = true) headers ->
  pop_while this node headers = None.
Proof.
  induction 1 as [|r headers (x & Hx & Hlt) _ IH]; simpl; [done|].
  by rewrite Hx; simpl; rewrite Hlt.
Qed.

(** A header of negative level empties the stack: the iteration throws. *)
Lemma DocumentNode_step_negative st node :
  levels_ok st -> nonneg_level node = false -> DocumentNode_step st node = None.
Proof.
  destruct st as [this headers]. intros (levels & Hall & Hsort & Hlast) Hneg.
  cbn [fst snd] in *. unfold nonneg_level in Hneg.
  destruct (level node) as [l|] eqn:Hl; [|done].
  apply bool_decide_eq_false in Hneg.
  destruct (DocumentNode_step (this, headers) node) as [st'|] eqn:Hstep; [|done].
  exfalso.
  destruct (DocumentNode_step_Some _ _ _ _ Hstep)
    as (top & below & this' & t & -> & Hm & Ht & Hcase).
  pose proof (sendChild_appends node) as Hf.
  assert (Hall' : Forall2 (fun r lvl => frame_level this' r = Some lvl)
                    (top :: below) levels).
  { eapply Forall2_impl; [exact Hall|]. intros r lvl.
    exact (frame_level_modify _ _ _ _ _ _ Hf Hm). }
  assert (Hlt : Forall (fun r => exists x, deref this' r = Some x /\
                          js_lt (level node) (level x) = true) (top :: below)).
  { eapply Forall2_Forall_l; [exact Hall'|].
    apply Forall_forall. intros lvl Hin r Hr.
    pose proof (Sorted_last_le _ _ Hsort Hlast Hin) as Hpos.
    unfold frame_level in Hr. destruct (deref this' r) as [x|]; simpl in Hr; [|done].
    exists x. split; [done|]. rewrite Hr, Hl. unfold js_lt, js_gt.
    apply bool_decide_eq_true. lia. }
  assert (Hn : isHeader node = true) by (unfold isHeader; by rewrite Hl).
  rewrite Hn in Hcase. destruct Hcase as (hs & _ & Hcase).
  apply Forall_cons in Hlt as Htop. destruct Htop as [(x & Hx & Hxlt) _].
  rewrite Ht in Hx. injection Hx as <-.
  destruct (js_gt (level node) (level t)) eqn:Hgt.
  - rewrite Hl in Hgt, Hxlt. unfold js_lt, js_gt in *. destruct (level t); [|done].
    apply bool_decide_eq_true in Hgt, Hxlt. lia.
  - by rewrite (pop_while_None _ _ _ Hlt) in Hcase.
Qed.

Lemma foldM_step_nonneg nodes st st' :
  frames_ok st -> levels_ok st ->
  foldM DocumentNode_step st nodes = Some st' ->
  Forall (fun n => nonneg_level n = true) nodes.
Proof.
  revert st. induction nodes as [|n nodes IH]; intros st Hf Hl H; [constructor|].
  rewrite foldM_cons in H.
  destruct (DocumentNode_step st n) as [st1|] eqn:Hstep; simpl in H; [|done].
  constructor.
  - destruct (nonneg_level n) eqn:Hn; [done|].
    by rewrite (DocumentNode_step_negative _ _ Hl Hn) in Hstep.
  - eapply IH; [by eapply frames_ok_step|by eapply levels_ok_step|done].
Qed.

Lemma assemble_is_Some l :
  is_Some (DocumentNode_assemble l) <->
  exists nodes,
    mapM loadNode l = Some nodes /\
    Forall (fun n => nonneg_level n = true) nodes /\
    only_last bare_header nodes = true.
Proof.
  unfold DocumentNode_assemble. split.
  - intros [st Hst].
    destruct (assemble_Some_loaded _ _ _ Hst) as [nodes Hnodes].
    rewrite (assemble_loaded _ _ _ Hnodes) in Hst.
    exists nodes. split_and!; [done| |].
    + exact (foldM_step_nonneg _ _ _ frames_ok_init levels_ok_init Hst).
    + by eapply foldM_step_only_last.
  - intros (nodes & Hnodes & Hall & Hlast). rewrite (assemble_loaded _ _ _ Hnodes).
    exact (foldM_step_is_Some nodes DocumentNode_init frames_ok_init top_sends_init
             Hall Hlast).
Qed.

(** X2: the document constructor returns exactly when every child loads, no
    loaded header has a negative level, and no header but the last node is a
    flat object, which has no method [sendChild]: a negative level pops the
    document off the stack, and a child sent to a flat object throws. *)
Theorem assembly_succeeds_iff (l : list ASTObject) :
  is_Some (DocumentNode_new l) <->
  exists nodes,
    mapM loadNode l = Some nodes /\
    Forall (fun n => nonneg_level n = true) nodes /\
    only_last bare_header nodes = true.
Proof.
  rewrite <- assemble_is_Some. unfold DocumentNode_new.
  destruct (DocumentNode_assemble l) as [st|]; simpl.
  - split; by eexists.
  - split; by intros [? ?].
Qed.

(** X3: at the end of the loop the bottom frame of the stack is the
    document itself, and the levels of the frames are defined and sorted: no
    frame is shallower than a frame below it, and the bottom frame has
    level 0. *)
Theorem stack_levels_sorted (l : list ASTObject) (doc : ASTNode) (headers : Stack.t Ref) :
  DocumentNode_assemble l = Some (doc, headers) ->
  last headers = Some [] /\
  is_document doc = true /\
  exists levels : list Z,
    Forall2 (fun r lvl => frame_level doc r = Some lvl) headers levels /\
    StronglySorted deeper_or_equal levels /\
    last levels = Some 0.
Proof.
  intros H.
  destruct (frames_ok_assemble _ _ H) as (Hdoc & Hbottom & _).
  split; [done|]. split; [done|].
  assert (Hinv : levels_ok (doc, headers)).
  { revert H. apply foldM_invariant; [|apply levels_ok_init].
    intros s x s' Hs Hstep. apply load_step_Some in Hstep as (n & _ & Hstep).
    by eapply levels_ok_step. }
  destruct Hinv as (levels & Hall & Hsort & Hlast).
  exists levels. split_and!; try done.
  apply Sorted_StronglySorted; [|done].
  intros a b c. unfold deeper_or_equal. lia.
Qed.

Lemma nonneg_level_loaded obj n :
  loadNode obj = Some n -> nonneg_level n = level_nonneg (loaded_level obj).
Proof. intros H. unfold nonneg_level. by rewrite (loadNode_level _ _ H). Qed.

Lemma forallb_Forall {A} (f : A -> bool) l :
  forallb f l = true <-> Forall (fun x => f x = true) l.
Proof.
  induction l as [|x l IH]; simpl; [by split; [constructor|]|].
  rewrite andb_true_iff, IH, Forall_cons. done.
Qed.

Lemma mapM_loadNode_loadable l :
  Forall (fun obj => is_Some (loadNode obj) <-> loadable obj = true) l ->
  is_Some (mapM loadNode l) <-> forallb loadable l = true.
Proof.
  intros IH. rewrite mapM_is_Some, forallb_Forall.
  induction IH as [|x l Hx _ IHl]; [done|].
  rewrite !Forall_cons, IHl. simpl. by rewrite Hx.
Qed.

Lemma only_last_Forall2 {A B} (p : A -> bool) (q : B -> bool) l k :
  Forall2 (fun x y => p x = q y) l k -> only_last p l = only_last q k.
Proof.
  induction 1 as [|x y l k Hxy Hlk IH]; [done|].
  simpl. rewrite Hxy, IH. by destruct Hlk.
Qed.

Lemma mapM_loadNode_only_last l nodes :
  mapM loadNode l = Some nodes ->
  only_last loads_bare_header l = only_last bare_header nodes.
Proof.
  intros H. apply mapM_Some_1 in H. apply only_last_Forall2.
  eapply Forall2_impl; [exact H|]. intros obj n Hn.
  symmetry. by apply loadNode_bare_header.
Qed.

(** A document loads when its children load, without a negative level and
    without a flat object as a header before the last child. *)
Lemma document_loadable l :
  Forall (fun obj => is_Some (loadNode obj) <-> loadable obj = true) l ->
  is_Some (DocumentNode_assemble l) <->
  forallb (fun child => loadable child && level_nonneg (loaded_level child)) l
  && only_last loads_bare_header l = true.
Proof.
  intros IH. pose proof (mapM_loadNode_loadable l IH) as Hmap.
  rewrite assemble_is_Some, andb_true_iff, forallb_Forall. split.
  - intros (nodes & Hnodes & Hnn & Hlast).
    split; [|by rewrite (mapM_loadNode_only_last _ _ Hnodes)].
    apply Forall_forall. intros child Hin.
    apply mapM_Some_1 in Hnodes.
    destruct (proj1 (list_elem_of_lookup _ _) Hin) as [i Hi].
    destruct (Forall2_lookup_l _ _ _ _ _ Hnodes Hi) as (node & Hnode & Hload).
    apply andb_true_iff. split.
    + rewrite Forall_forall in IH. apply IH; [done|by eexists].
    + rewrite <- (nonneg_level_loaded _ _ Hload).
      rewrite Forall_forall in Hnn. apply Hnn.
      by eapply list_elem_of_lookup_2.
  - intros [Hl Hlast].
    assert (Hload : forallb loadable l = true).
    { apply forallb_Forall. eapply Forall_impl; [exact Hl|].
      intros x Hx. by apply andb_true_iff in Hx as [Hx _]. }
    apply Hmap in Hload as [nodes Hnodes].
    exists nodes. split_and!; [done| |by rewrite <- (mapM_loadNode_only_last _ _ Hnodes)].
    apply mapM_Some_1 in Hnodes. apply Forall_forall. intros n Hin.
    destruct (proj1 (list_elem_of_lookup _ _) Hin) as [i Hi].
    destruct (Forall2_lookup_r _ _ _ _ _ Hnodes Hi) as (child & Hchild & Hc).
    rewrite (nonneg_level_loaded _ _ Hc).
    rewrite Forall_forall in Hl.
    assert (Hx : loadable child && level_nonneg (loaded_level child) = true).
    { apply Hl. by eapply list_elem_of_lookup_2. }
    by apply andb_true_iff in Hx as [_ ?].
Qed.

(** X1: [loadNode] returns a node exactly on the loadable flat nodes: the
    tag reads a class, the function [Object] or nothing in the registry, and
    no other member of [Object.prototype]; where a document, a heading or a
    paragraph is loaded its [children] is an array of loadable nodes; and
    among the children of a document no header has a negative level and no
    header but the last child is a flat object. *)
Theorem loadNode_succeeds_iff (obj : ASTObject) :
  is_Some (loadNode obj) <-> loadable obj = true.
Proof.
  induction obj as [s|e f s|e f l IH] using ASTObject_nested_ind.
  - split; [done|by eexists].
  - simpl. destruct (NodeTypes_get e) as [[ctor| |]|];
      [|split; [done|by eexists]|split; [by intros [? ?]|done]
       |split; [done|by eexists]].
    destruct ctor; simpl; split; try done; try (by eexists); by intros [? ?].
  - pose proof (mapM_loadNode_loadable l IH) as Hmap.
    pose proof (document_loadable l IH) as Hdoc. simpl.
    destruct (NodeTypes_get e) as [[ctor| |]|];
      [|split; [done|by eexists]|split; [by intros [? ?]|done]
       |split; [done|by eexists]].
    destruct ctor; simpl; try (split; [done|by eexists]).
    + rewrite <- Hdoc.
      change (foldM _ DocumentNode_init l) with (DocumentNode_assemble l).
      destruct (DocumentNode_assemble l); simpl; split;
        try done; try (by eexists); by intros [? ?].
    + rewrite <- Hmap. destruct (mapM loadNode l); simpl; split;
        try done; try (by eexists); by intros [? ?].
    + rewrite <- Hmap. destruct (mapM loadNode l); simpl; split;
        try done; try (by eexists); by intros [? ?].
Qed.

Lemma loadable_flat_object :
  loadNode (Object "document" no_fields (Items [heading 1 "A"; flat_object (Some 2)])) =
    Some (MkASTNode (Some "document")
            [heading_node 1 "A" [object_node (Some 2)]] (ADocumentNode [])) /\
  loadable (Object "document" no_fields
              (Items [flat_object (Some 2); heading 1 "A"])) = false /\
  loadable (Object "toString" no_fields (Items [])) = false.
Proof. split_and!; reflexivity. Qed.

Lemma stack_levels_sorted_witness :
  last [[0; 0; 0]; [0]; []]%nat = Some [] /\
  is_document
    (MkASTNode None
       [heading_node 1 "A" [heading_node 3 "B" [heading_node 2 "C" []]]]
       (ADocumentNode [])) = true /\
  exists levels : list Z,
    Forall2 (fun r lvl =>
               frame_level
                 (MkASTNode None
                    [heading_node 1 "A" [heading_node 3 "B" [heading_node 2 "C" []]]]
                    (ADocumentNode [])) r = Some lvl)
            [[0; 0; 0]; [0]; []]%nat levels /\
    StronglySorted deeper_or_equal levels /\
    last levels = Some 0.
Proof.
  apply (stack_levels_sorted [heading 1 "A"; heading 3 "B"; heading 2 "C"]).
  reflexivity.
Defined.

(** ** The type names of a loaded tree *)

Lemma well_tagged_below_eq n :
  well_tagged_below n =
  forallb well_tagged (children n)
  && match inst n with
     | ADocumentNode pre => forallb well_tagged pre
     | AHeadingNode _ lab => forallb well_tagged lab
     | _ => true
     end.
Proof. by destruct n. Qed.

Lemma forallb_snoc {A} (f : A -> bool) l x :
  forallb f (l ++ [x]) = forallb f l && f x.
Proof. rewrite forallb_app. simpl. by rewrite andb_true_r. Qed.

Lemma forallb_insert {A} (f : A -> bool) l i x :
  forallb f l = true -> f x = true -> forallb f (<[i:=x]> l) = true.
Proof.
  revert i. induction l as [|y l IH]; intros i; simpl; [done|].
  intros [Hy Hl]%andb_true_iff Hx. destruct i; simpl.
  - by rewrite Hx, Hl.
  - by rewrite Hy, IH.
Qed.

Lemma sendChild_well_tagged t x t' :
  well_tagged_below t = true -> well_tagged x = true ->
  sendChild t x = Some t' ->
  well_tagged_below t' = true /\ typename t' = typename t /\
  class_tag (inst t') = class_tag (inst t).
Proof.
  rewrite !well_tagged_below_eq. unfold sendChild. intros Ht Hx.
  destruct t as [ty cs i]; simpl in *.
  destruct i; try done; [destruct (isHeader x)|]; intros [= <-]; simpl;
    rewrite ?forallb_snoc, ?Hx, ?andb_true_r; split_and!; try done.
Qed.

Lemma modify_well_tagged x this r this' :
  well_tagged_below this = true -> well_tagged x = true ->
  modify (fun t => sendChild t x) this r = Some this' ->
  well_tagged_below this' = true /\ typename this' = typename this /\
  class_tag (inst this') = class_tag (inst this).
Proof.
  intros Hthis Hx. revert this this' Hthis.
  induction r as [|i r IH]; intros this this' Hthis Hm.
  - by eapply sendChild_well_tagged.
  - apply modify_cons in Hm as (c & c' & Hc & Hm & ->).
    rewrite well_tagged_below_eq in Hthis.
    apply andb_true_iff in Hthis as [Hcs Hi].
    assert (Hwc : well_tagged c = true).
    { rewrite forallb_forall in Hcs. apply Hcs.
      apply list_elem_of_In. by eapply list_elem_of_lookup_2. }
    unfold well_tagged in Hwc. apply andb_true_iff in Hwc as [Hty Hbelow].
    apply bool_decide_eq_true in Hty.
    destruct (IH _ _ Hbelow Hm) as (Hb' & Hty' & Hcl').
    split_and!; [|done..]. rewrite well_tagged_below_eq. simpl.
    rewrite Hi, andb_true_r. apply forallb_insert; [done|].
    unfold well_tagged. rewrite Hb', andb_true_r.
    apply bool_decide_eq_true. by rewrite Hty', Hcl'.
Qed.

Lemma step_well_tagged st node st' :
  well_tagged_below st.1 = true -> well_tagged node = true ->
  DocumentNode_step st node = Some st' ->
  well_tagged_below st'.1 = true /\ class_tag (inst st'.1) = class_tag (inst st.1).
Proof.
  destruct st as [this headers]. intros Hthis Hnode Hstep.
  destruct (DocumentNode_step_Some _ _ _ _ Hstep)
    as (top & below & this' & t & -> & Hm & Ht & Hcase).
  destruct (modify_well_tagged _ _ _ _ Hthis Hnode Hm) as (Hb & _ & Hc).
  destruct (isHeader node).
  - by destruct Hcase as (hs & -> & _).
  - by subst st'.
Qed.

Lemma foldM_step_well_tagged nodes st st' :
  well_tagged_below st.1 = true ->
  Forall (fun n => well_tagged n = true) nodes ->
  foldM DocumentNode_step st nodes = Some st' ->
  well_tagged_below st'.1 = true /\ class_tag (inst st'.1) = class_tag (inst st.1).
Proof.
  intros Hst Hall. revert st Hst.
  induction Hall as [|n nodes Hn _ IH]; intros st Hst H.
  - by injection H as <-.
  - rewrite foldM_cons in H.
    destruct (DocumentNode_step st n) as [st1|] eqn:Hstep; simpl in H; [|done].
    destruct (step_well_tagged _ _ _ Hst Hn Hstep) as [Hb Hc].
    destruct (IH _ Hb H) as [Hb' Hc']. split; [done|]. by rewrite Hc', Hc.
Qed.

Lemma mapM_loadNode_well_tagged l nodes :
  Forall (fun obj => forall n, loadNode obj = Some n -> well_tagged n = true) l ->
  mapM loadNode l = Some nodes ->
  Forall (fun n => well_tagged n = true) nodes.
Proof.
  intros IH H. apply mapM_Some_1 in H.
  induction H as [|x n l nodes Hx _ IHl]; [constructor|].
  apply Forall_cons in IH as [Hn IH]. constructor; auto.
Qed.

(** X6: in the tree [loadNode] returns every node, at any depth, in
    [children], [preamble] and [label], has the type name its class is
    registered for; the nodes of the base class have "default_node", and a
    flat object returned as it is has "constructor", the one tag that returns
    it (its own children are flat nodes and no part of the loaded tree). *)
Theorem loaded_tree_well_tagged (obj : ASTObject) (n : ASTNode) :
  loadNode obj = Some n -> well_tagged n = true.
Proof.
  revert n. induction obj as [s|e f s|e f l IH] using ASTObject_nested_ind;
    intros n.
  - by intros [= <-].
  - simpl. pose proof (NodeTypes_get_spec e) as H.
    destruct (NodeTypes_get e) as [[ctor| |]|];
      [|destruct H as [_ ->]; by intros [= <-]|done|by intros [= <-]].
    registry_cases H; simpl; try done; by intros [= <-].
  - simpl. pose proof (NodeTypes_get_spec e) as H.
    destruct (NodeTypes_get e) as [[ctor| |]|];
      [|destruct H as [_ ->]; by intros [= <-]|done|by intros [= <-]].
    registry_cases H; simpl; try (by intros [= <-]).
    + change (foldM _ DocumentNode_init l) with (foldM load_step DocumentNode_init l).
      destruct (foldM load_step DocumentNode_init l) as [st|] eqn:Hst; simpl; [|done].
      intros [= <-].
      destruct (assemble_Some_loaded _ _ _ Hst) as [nodes Hnodes].
      rewrite (assemble_loaded _ _ _ Hnodes) in Hst.
      pose proof (mapM_loadNode_well_tagged _ _ IH Hnodes) as Hall.
      destruct (foldM_step_well_tagged nodes DocumentNode_init st eq_refl Hall Hst)
        as [Hb Hc].
      unfold well_tagged. apply andb_true_iff. split.
      * apply bool_decide_eq_true. simpl. by rewrite Hc.
      * by destruct st as [[ty cs i] hs].
    + destruct (mapM loadNode l) as [nodes|] eqn:Hnodes; simpl; [|done].
      intros [= <-].
      pose proof (mapM_loadNode_well_tagged _ _ IH Hnodes) as Hall.
      unfold well_tagged. simpl. rewrite ?andb_true_r.
      by apply forallb_Forall.
    + destruct (mapM loadNode l) as [nodes|] eqn:Hnodes; simpl; [|done].
      intros [= <-].
      pose proof (mapM_loadNode_well_tagged _ _ IH Hnodes) as Hall.
      unfold well_tagged. simpl. rewrite ?andb_true_r.
      by apply forallb_Forall.
Qed.

Lemma loaded_tree_well_tagged_witness :
  well_tagged
    (MkASTNode (Some "document")
       [heading_node 1 "A"
          [MkASTNode (Some "default_node") [] AnASTNode; object_node None]]
       (ADocumentNode [paragraph_node "intro"])) = true.
Proof.
  apply (loaded_tree_well_tagged
           (Object "document" no_fields
              (Items [paragraph "intro"; heading 1 "A";
                      Object "footnote" no_fields (Items []);
                      flat_object None]))).
  reflexivity.
Defined.


(** ** The options of a directive and the shape of the document *)

Lemma DirectiveNode_options_snoc children child :
  instanceof_DirectiveOptionNode child = true ->
  DirectiveNode_options (children ++ [child]) =
  <[property_key (key child) := value child]> (DirectiveNode_options children).
Proof.
  intros H. unfold DirectiveNode_options. rewrite filter_app, map_app.
  rewrite filter_cons_True by done. simpl. by rewrite fromEntries_snoc.
Qed.

(** X7: the mapping the directive constructor computes from an array of
    children gives, for a key, the value of the last option node with that
    key, and nothing for a key no option node has; children of other
    classes do not count. *)
Theorem options_last_write_wins (children : list ASTNode) (k : string) :
  DirectiveNode_options children !! k = last_option_value k children.
Proof.
  unfold last_option_value.
  induction children as [|child children IH] using rev_ind; [done|].
  rewrite omap_app. simpl.
  destruct (instanceof_DirectiveOptionNode child) eqn:Hc; simpl.
  - rewrite (DirectiveNode_options_snoc _ _ Hc).
    destruct (decide (property_key (key child) = k)) as [Hk|Hk].
    + rewrite bool_decide_eq_true_2 by done. simpl.
      rewrite last_snoc. subst k. by rewrite lookup_insert_eq.
    + rewrite bool_decide_eq_false_2 by done. simpl.
      rewrite app_nil_r. by rewrite lookup_insert_ne.
  - rewrite (DirectiveNode_options_snoc_other _ _ Hc). by rewrite app_nil_r.
Qed.

(** X4: the document the constructor returns is the chain of [nest]: every
    loaded node is a child of the nearest header before it in the sequence,
    whatever the levels, and the nodes before the first header are the
    preamble. *)
Theorem assembled_tree_is_nest (l : list ASTObject) (doc : ASTNode) :
  DocumentNode_new l = Some doc ->
  exists nodes,
    mapM loadNode l = Some nodes /\
    doc = foldl adopt (ASTNode_new (ADocumentNode [])) (nest nodes).
Proof.
  unfold DocumentNode_new. intros H.
  destruct (DocumentNode_assemble l) as [st|] eqn:Hst; simpl in H; [|done].
  injection H as <-. unfold DocumentNode_assemble in Hst.
  destruct (assemble_Some_loaded _ _ _ Hst) as [nodes Hnodes].
  rewrite (assemble_loaded _ _ _ Hnodes) in Hst.
  exists nodes. split; [done|].
  pose proof (assemble_nest nodes (ASTNode_new (ADocumentNode [])) [] [] _ _
                eq_refl eq_refl Hst) as H.
  simpl in H. by injection H as <-.
Qed.

Lemma assembled_tree_is_nest_witness :
  exists nodes,
    mapM loadNode [heading 1 "A"; heading 1 "B"] = Some nodes /\
    MkASTNode None [heading_node 1 "A" [heading_node 1 "B" []]] (ADocumentNode []) =
    foldl adopt (ASTNode_new (ADocumentNode [])) (nest nodes).
Proof.
  apply (assembled_tree_is_nest [heading 1 "A"; heading 1 "B"]). reflexivity.
Defined.

Lemma nest_split nodes :
  nest nodes = before_first_header nodes /\ Forall (fun n => isHeader n = false) nodes \/
  exists h rest,
    nodes = before_first_header nodes ++ h :: rest /\ isHeader h = true /\
    nest nodes = before_first_header nodes ++ [foldl adopt h (nest rest)].
Proof.
  induction nodes as [|n nodes IH]; simpl; [left; by split|].
  destruct (isHeader n) eqn:Hn.
  - right. by exists n, nodes.
  - destruct IH as [[-> Hall]|(h & rest & Heq & Hh & ->)].
    + left. split; [done|]. by constructor.
    + right. exists h, rest. split_and!; [by simpl; f_equal|done|done].
Qed.

Lemma filter_nonheaders l :
  Forall (fun n => isHeader n = false) l ->
  filter (fun n => isHeader n = true) l = [].
Proof.
  induction 1 as [|x l Hx _ IH]; [done|].
  by rewrite filter_cons_False by (by rewrite Hx).
Qed.

(** X5: the document gets the first header of the sequence as its only
    child, with every later node nested under it, and no child at all when
    the sequence has no header. *)
Theorem document_only_child (l : list ASTObject) (doc : ASTNode) :
  DocumentNode_new l = Some doc ->
  exists nodes,
    mapM loadNode l = Some nodes /\
    ((Forall (fun n => isHeader n = false) nodes /\ children doc = []) \/
     (exists h rest,
        nodes = before_first_header nodes ++ h :: rest /\
        isHeader h = true /\
        children doc = [foldl adopt h (nest rest)])).
Proof.
  intros H. destruct (DocumentNode_new_nest _ _ H) as (nodes & Hnodes & ->).
  exists nodes. split; [done|].
  rewrite foldl_adopt_document by done. simpl.
  destruct (before_first_header_split nodes) as (_ & _ & Hpre & _).
  destruct (nest_split nodes) as [[-> Hall]|(h & rest & Heq & Hh & ->)].
  - left. split; [done|]. by apply filter_nonheaders.
  - right. exists h, rest. split_and!; [done..|].
    rewrite filter_app, (filter_nonheaders _ Hpre). simpl.
    rewrite filter_cons_True; [done|].
    by rewrite (isHeader_header_of _ _ (foldl_adopt_header_of h (nest rest))).
Qed.

Lemma document_only_child_witness :
  exists nodes,
    mapM loadNode [paragraph "intro"; heading 2 "A"; heading 1 "B"] = Some nodes /\
    ((Forall (fun n => isHeader n = false) nodes /\
      children (MkASTNode None [heading_node 2 "A" [heading_node 1 "B" []]]
                  (ADocumentNode [paragraph_node "intro"])) = []) \/
     (exists h rest,
        nodes = before_first_header nodes ++ h :: rest /\
        isHeader h = true /\
        children (MkASTNode None [heading_node 2 "A" [heading_node 1 "B" []]]
                    (ADocumentNode [paragraph_node "intro"])) =
        [foldl adopt h (nest rest)])).
Proof.
  apply (document_only_child [paragraph "intro"; heading 2 "A"; heading 1 "B"]).
  reflexivity.
Defined.


(** ** What the component shows *)

Lemma ContentNode_document n :
  is_document n = true -> ContentNode n = Div (map ContentNode (children n)).
Proof. destruct n as [ty cs i]. unfold is_document. simpl. by destruct i. Qed.

Lemma heading_inst h :
  has_sendChild h = true -> is_document h = false ->
  exists lvl lab, inst h = AHeadingNode lvl lab.
Proof.
  unfold has_sendChild, is_document. destruct (inst h); try done. eauto.
Qed.

Lemma foldl_adopt_heading_eq h xs :
  has_sendChild h = true -> is_document h = false ->
  foldl adopt h xs = set_children (children h ++ xs) h.
Proof.
  revert h. induction xs as [|x xs IH]; intros h Hh Hd; simpl.
  - rewrite app_nil_r. by destruct h.
  - pose proof (adopt_header_of h x) as Heq.
    rewrite IH.
    + destruct (heading_inst _ Hh Hd) as (lvl & lab & Hi).
      unfold adopt, sendChild. rewrite Hi. simpl. unfold set_children. simpl.
      by rewrite <- app_assoc, Hi.
    + by rewrite (has_sendChild_header_of _ _ Heq).
    + by rewrite (is_document_header_of _ _ Heq).
Qed.

Lemma shown_heading h xs :
  has_sendChild h = true -> is_document h = false ->
  shown (ContentNode (foldl adopt h xs)) =
  shown (ContentNode h) ++ flat_map (fun n => shown (ContentNode n)) xs.
Proof.
  intros Hh Hd. rewrite (foldl_adopt_heading_eq _ _ Hh Hd).
  destruct (heading_inst _ Hh Hd) as (lvl & lab & Hi).
  destruct h as [ty cs i]. simpl in *. subst i. simpl.
  rewrite map_app, flat_map_app. f_equal. f_equal.
  by rewrite flat_map_concat_map, map_map, <- flat_map_concat_map.
Qed.

Lemma only_last_app_r {A} (p : A -> bool) l1 l2 :
  only_last p (l1 ++ l2) = true -> only_last p l2 = true.
Proof.
  induction l1 as [|x l1 IH]; [done|]. rewrite <- app_comm_cons.
  intros [_ H]%only_last_cons. auto.
Qed.

(** What is shown of the chain is what is shown of the nodes, when only the
    last header can be an object without the method [sendChild]. *)
Lemma shown_nest nodes :
  Forall (fun n => is_document n = false) nodes ->
  only_last bare_header nodes = true ->
  flat_map (fun n => shown (ContentNode n)) (nest nodes) =
  flat_map (fun n => shown (ContentNode n)) nodes.
Proof.
  induction 1 as [|n nodes Hn _ IH]; [done|].
  intros [Hbare Hlast]%only_last_cons. cbn [nest].
  destruct (isHeader n) eqn:Hh; cbn [flat_map]; [|by rewrite IH].
  rewrite app_nil_r. destruct Hbare as [Hbare| ->]; [|by rewrite app_nil_r].
  unfold bare_header in Hbare. rewrite Hh in Hbare.
  assert (Hs : has_sendChild n = true) by (by destruct (has_sendChild n)).
  by rewrite (shown_heading _ _ Hs Hn), IH.
Qed.

Lemma from_first_header_app pre h rest :
  Forall (fun n => isHeader n = false) pre -> isHeader h = true ->
  from_first_header (pre ++ h :: rest) = h :: rest.
Proof.
  induction 1 as [|x pre Hx _ IH]; intros Hh; simpl.
  - by rewrite Hh.
  - rewrite Hx. auto.
Qed.

Lemma from_first_header_none nodes :
  Forall (fun n => isHeader n = false) nodes -> from_first_header nodes = [].
Proof. induction 1 as [|x l Hx _ IH]; simpl; [done|]. by rewrite Hx. Qed.

(** X9: what the component shows of a document, the grouping [div]s taken
    away, is what it shows of each loaded node from the first header on, in
    the order of the sequence; the nodes before the first header (the
    preamble) are not shown.  The loaded nodes are not documents. *)
Theorem ContentNode_shows_in_source_order
    (l : list ASTObject) (nodes : list ASTNode) (doc : ASTNode) :
  mapM loadNode l = Some nodes ->
  Forall (fun n => is_document n = false) nodes ->
  DocumentNode_new l = Some doc ->
  shown (ContentNode doc) =
  flat_map (fun n => shown (ContentNode n)) (from_first_header nodes).
Proof.
  intros Hnodes Hdocs H.
  assert (Hlast : only_last bare_header nodes = true).
  { destruct (proj1 (assemble_is_Some l)) as (nodes' & Hnodes' & _ & Hlast).
    - unfold DocumentNode_new in H.
      destruct (DocumentNode_assemble l); [by eexists|done].
    - rewrite Hnodes in Hnodes'. by injection Hnodes' as <-. }
  destruct (DocumentNode_new_nest _ _ H) as (nodes' & Hnodes' & ->).
  rewrite Hnodes in Hnodes'. injection Hnodes' as <-.
  rewrite ContentNode_document
    by (by rewrite (is_document_header_of _ _ (foldl_adopt_header_of _ _))).
  rewrite foldl_adopt_document by done. simpl.
  rewrite flat_map_concat_map, map_map, <- flat_map_concat_map.
  destruct (before_first_header_split nodes) as (_ & _ & Hpre & _).
  destruct (nest_split nodes) as [[-> Hall]|(h & rest & Heq & Hh & ->)].
  - rewrite (filter_nonheaders _ Hpre), (from_first_header_none _ Hall). done.
  - rewrite filter_app, (filter_nonheaders _ Hpre). simpl.
    rewrite filter_cons_True
      by (by rewrite (isHeader_header_of _ _ (foldl_adopt_header_of h (nest rest)))).
    rewrite filter_nil. simpl. rewrite app_nil_r.
    assert (Hd : Forall (fun n => is_document n = false) (h :: rest)).
    { rewrite Heq in Hdocs. by apply Forall_app in Hdocs as [_ ?]. }
    assert (Hl : only_last bare_header (h :: rest) = true).
    { rewrite Heq in Hlast. by apply only_last_app_r in Hlast. }
    replace (from_first_header nodes) with (h :: rest)
      by (rewrite Heq; by rewrite (from_first_header_app _ _ _ Hpre Hh)).
    rewrite <- (shown_nest _ Hd Hl). cbn [nest]. rewrite Hh. cbn [flat_map].
    by rewrite app_nil_r.
Qed.

Lemma ContentNode_shows_in_source_order_witness :
  exists nodes doc,
    mapM loadNode [paragraph "intro"; heading 2 "A"; paragraph "text"; heading 1 "B"]
      = Some nodes /\
    Forall (fun n => is_document n = false) nodes /\
    DocumentNode_new [paragraph "intro"; heading 2 "A"; paragraph "text"; heading 1 "B"]
      = Some doc /\
    shown (ContentNode doc) =
    flat_map (fun n => shown (ContentNode n)) (from_first_header nodes).
Proof.
  eexists _, _.
  assert (Hnodes : mapM loadNode
            [paragraph "intro"; heading 2 "A"; paragraph "text"; heading 1 "B"]
          = Some [paragraph_node "intro"; heading_node 2 "A" [];
                  paragraph_node "text"; heading_node 1 "B" []]) by reflexivity.
  assert (Hdocs : Forall (fun n => is_document n = false)
            [paragraph_node "intro"; heading_node 2 "A" [];
             paragraph_node "text"; heading_node 1 "B" []])
    by (repeat constructor).
  split; [exact Hnodes|]. split; [exact Hdocs|]. split; [reflexivity|].
  exact (ContentNode_shows_in_source_order _ _ _ Hnodes Hdocs eq_refl).
Defined.

(** X10: a loaded node is shown as the paragraph "Unknown type" with its
    [typename], and nothing of its children, exactly when its [element] is
    none of document, heading, paragraph, raw_text and blank_line: so are
    directive blocks, directive options, internal links, and every node of
    an unregistered element, shown as 'default_node'. *)
Theorem ContentNode_unknown (obj : ASTObject) (n : ASTNode) :
  loadNode obj = Some n ->
  (ContentNode n = Unknown (typename n) <->
   forall e, element obj = Some e -> e ∉ rendered_elements).
Proof.
  assert (Hin : forall e : string,
            bool_decide (e ∈ rendered_elements) = true ->
            ~ (forall e', Some e = Some e' -> e' ∉ rendered_elements)).
  { intros e He%bool_decide_eq_true H. by apply (H e). }
  assert (Hout : forall e : string,
            bool_decide (e ∈ rendered_elements) = false ->
            forall e', Some e = Some e' -> e' ∉ rendered_elements).
  { intros e He e' [= <-]. by apply bool_decide_eq_false in He. }
  destruct obj as [s|e f c].
  - intros [= <-]. split; [by intros _ e [=]|done].
  - simpl element. pose proof (NodeTypes_get_spec e) as He.
    destruct (NodeTypes_get e) as [[ctor| |]|] eqn:Hget.
    + registry_cases He; simpl; try rewrite Hget.
      * intros H. split; [|intros H'; by destruct (Hin "document" eq_refl)].
        destruct c as [s|l]; [done|]. simpl in H.
        change (foldM _ DocumentNode_init l) with (DocumentNode_assemble l) in H.
        destruct (DocumentNode_assemble l) as [st|] eqn:Hst; simpl in H; [|done].
        injection H as <-.
        destruct (DocumentNode_new_nest l st.1) as (nodes & _ & Heq).
        { unfold DocumentNode_new. by rewrite Hst. }
        rewrite Heq. simpl.
        pose proof (foldl_adopt_header_of (ASTNode_new (ADocumentNode [])) (nest nodes))
          as Hh.
        apply is_document_header_of in Hh.
        destruct (foldl adopt _ _) as [ty cs i]. unfold is_document in Hh. simpl in *.
        by destruct i.
      * intros H. split; [|intros H'; by destruct (Hin "heading" eq_refl)].
        destruct c as [s|l]; [done|]. simpl in H.
        destruct (mapM loadNode l) as [lab|]; simpl in H; [|done].
        by injection H as <-.
      * simpl. intros [= <-]. split; [by intros _; apply Hout|done].
      * simpl. intros [= <-]. split; [by intros _; apply Hout|done].
      * intros H. split; [|intros H'; by destruct (Hin "paragraph" eq_refl)].
        destruct c as [s|l]; [done|]. simpl in H.
        destruct (mapM loadNode l) as [loaded|]; simpl in H; [|done].
        by injection H as <-.
      * simpl. intros [= <-]. split; [done|intros H'; by destruct (Hin "raw_text" eq_refl)].
      * simpl. intros [= <-]. split; [done|intros H'; by destruct (Hin "blank_line" eq_refl)].
      * simpl. intros [= <-]. split; [by intros _; apply Hout|done].
    + destruct He as [_ ->]. simpl. rewrite Hget. intros [= <-].
      split; [by intros _; apply Hout|done].
    + simpl. by rewrite Hget.
    + simpl. rewrite Hget. intros [= <-]. simpl. split; [|done].
      destruct He as [He _]. intros _ e' [= <-] Hin'.
      assert (Hreg : is_Some (NodeTypes !! e)).
      { unfold rendered_elements in Hin'.
        repeat (apply elem_of_cons in Hin' as [->|Hin']; [by eexists|]).
        by apply elem_of_nil in Hin'. }
      rewrite He in Hreg. by destruct Hreg.
Qed.

Lemma ContentNode_unknown_witness :
  loadNode (directive_block "note" [paragraph "body"]) =
    Some (MkASTNode (Some "directive_block") []
            (ADirectiveNode (Some "note") None ∅)) /\
  (ContentNode (MkASTNode (Some "directive_block") []
                  (ADirectiveNode (Some "note") None ∅)) =
     Unknown (Some "directive_block") <->
   forall e, element (directive_block "note" [paragraph "body"]) = Some e ->
             e ∉ rendered_elements).
Proof.
  split; [reflexivity|].
  exact (ContentNode_unknown (directive_block "note" [paragraph "body"]) _ eq_refl).
Defined.


(** ** The lexemes of the terminals *)

Section Pattern_facts.
Import Pattern.

Lemma matches_Never_inv s : matches Never s -> False.
Proof. inversion 1. Qed.

Lemma matches_Empty_inv s : matches Empty s -> s = [].
Proof. by inversion 1. Qed.

Lemma matches_Class_inv p s : matches (Class p) s -> exists c, s = [c] /\ p c = true.
Proof. inversion 1; subst. eauto. Qed.

Lemma matches_Seq_inv a b s :
  matches (Seq a b) s ->
  exists s1 s2, s = s1 ++ s2 /\ matches a s1 /\ matches b s2.
Proof. inversion 1; subst. eauto. Qed.

Lemma matches_Or_inv a b s : matches (Or a b) s -> matches a s \/ matches b s.
Proof. inversion 1; subst; auto. Qed.

Lemma nullable_matches a : nullable a = true <-> matches a [].
Proof.
  induction a as [| |p|a IHa b IHb|a IHa b IHb|a IHa]; simpl.
  - split; [done|]. by intros ?%matches_Never_inv.
  - split; [constructor|done].
  - split; [done|]. by intros (c & ? & _)%matches_Class_inv.
  - rewrite andb_true_iff, IHa, IHb. split.
    + intros [Ha Hb]. by apply (matches_Seq a b [] []).
    + intros (s1 & s2 & Heq & H1 & H2)%matches_Seq_inv.
      symmetry in Heq. apply app_eq_nil in Heq as [-> ->]. done.
  - rewrite orb_true_iff, IHa, IHb. split.
    + intros [H|H]; [by apply matches_Or_l|by apply matches_Or_r].
    + by intros ?%matches_Or_inv.
  - split; [constructor|done].
Qed.

Lemma matches_Star_inv a c s :
  matches (Star a) (c :: s) ->
  exists s1 s2, s = s1 ++ s2 /\ matches a (c :: s1) /\ matches (Star a) s2.
Proof.
  intros H. remember (Star a) as p eqn:Hp. remember (c :: s) as cs eqn:Hcs.
  revert s Hcs. induction H as [| | | | | |a' s1 s2 H1 _ H2 IH2];
    intros s' Hcs; try done.
  injection Hp as ->. destruct s1 as [|c' s1]; simpl in Hcs.
  - by apply IH2.
  - injection Hcs as -> <-. by exists s1, s2.
Qed.

Lemma after_matches c a s : matches (after c a) s <-> matches a (c :: s).
Proof.
  revert s. induction a as [| |p|a IHa b IHb|a IHa b IHb|a IHa]; intros s; simpl.
  - split; by intros ?%matches_Never_inv.
  - split; [by intros ?%matches_Never_inv|by intros ?%matches_Empty_inv].
  - destruct (p c) eqn:Hp; split.
    + intros ->%matches_Empty_inv. by constructor.
    + intros (c' & [= -> ->] & _)%matches_Class_inv. constructor.
    + by intros ?%matches_Never_inv.
    + intros (c' & [= -> ->] & ?)%matches_Class_inv. congruence.
  - assert (Hseq : matches (Seq (after c a) b) s -> matches (Seq a b) (c :: s)).
    { intros (s1 & s2 & -> & H1 & H2)%matches_Seq_inv. apply IHa in H1.
      by apply (matches_Seq a b (c :: s1) s2). }
    assert (Hinv : matches (Seq a b) (c :: s) ->
                   matches (Seq (after c a) b) s \/
                   (matches a [] /\ matches b (c :: s))).
    { intros (s1 & s2 & Heq & H1 & H2)%matches_Seq_inv.
      destruct s1 as [|c' s1]; simpl in *.
      - right. by subst.
      - injection Heq as <- ->. left. constructor; [by apply IHa|done]. }
    destruct (nullable a) eqn:Hn.
    + split.
      * intros [H|H]%matches_Or_inv; [auto|].
        apply IHb in H. apply nullable_matches in Hn.
        by apply (matches_Seq a b [] (c :: s)).
      * intros H. destruct (Hinv H) as [H'|[_ H']];
          [by apply matches_Or_l|apply matches_Or_r; by apply IHb].
    + split; [done|]. intros H. destruct (Hinv H) as [H'|[H' _]]; [done|].
      apply nullable_matches in H'. congruence.
  - split.
    + intros [H|H]%matches_Or_inv;
        [apply matches_Or_l; by apply IHa|apply matches_Or_r; by apply IHb].
    + intros [H|H]%matches_Or_inv;
        [apply matches_Or_l; by apply IHa|apply matches_Or_r; by apply IHb].
  - split.
    + intros (s1 & s2 & -> & H1 & H2)%matches_Seq_inv. apply IHa in H1.
      by apply (matches_Star_cons a (c :: s1) s2).
    + intros H. apply matches_Star_inv in H as (s1 & s2 & -> & H1 & H2).
      constructor; [by apply IHa|done].
Qed.

Lemma accepts_matches a s : accepts a s = true <-> matches a s.
Proof.
  unfold accepts. revert a. induction s as [|c s IH]; intros a; simpl.
  - apply nullable_matches.
  - by rewrite IH, after_matches.
Qed.

Lemma matches_Chr_inv c s : matches (Chr c) s -> s = [c].
Proof.
  intros (c' & -> & H)%matches_Class_inv. by apply Ascii.eqb_eq in H as ->.
Qed.

Lemma matches_SAFECHAR_inv s :
  matches SAFECHAR s ->
  (exists c, s = [c] /\ (is_letter c = true \/ is_safe_punctuation c = true)) \/
  (exists X, s = ["`"%char; X] /\ is_reserved_punctuation X = true).
Proof.
  intros [H|[H|H]%matches_Or_inv]%matches_Or_inv.
  - apply matches_Class_inv in H as (c & -> & Hc). left. eauto.
  - apply matches_Class_inv in H as (c & -> & Hc). left. eauto.
  - apply matches_Seq_inv in H as (s1 & s2 & -> & H1 & H2).
    apply matches_Chr_inv in H1 as ->.
    apply matches_Class_inv in H2 as (X & -> & HX). right. eauto.
Qed.

Lemma matches_TEXTCHAR_inv s :
  matches TEXTCHAR s -> exists c, s = [c] /\ is_textchar c = true.
Proof.
  unfold is_textchar.
  intros [[H|H]%matches_Or_inv|[H|H]%matches_Or_inv]%matches_Or_inv;
    apply matches_Class_inv in H as (c & -> & Hc); exists c; (split; [done|]);
    unfold is_safe_punctuation, is_reserved_punctuation; rewrite Hc;
    by rewrite ?orb_true_r.
Qed.

Lemma matches_TEXTCHAR c : is_textchar c = true -> matches TEXTCHAR [c].
Proof.
  unfold is_textchar, TEXTCHAR, ALPHANUM, PUNCTUATION. intros H.
  apply orb_true_iff in H as [H|H]; [apply orb_true_iff in H as [H|H];
    [apply orb_true_iff in H as [H|H]|]|].
  - apply matches_Or_l, matches_Or_l. by constructor.
  - apply matches_Or_l, matches_Or_r. by constructor.
  - apply matches_Or_r, matches_Or_l. by constructor.
  - apply matches_Or_r, matches_Or_r. by constructor.
Qed.

Lemma matches_Star_Forall a (P : ascii -> Prop) s :
  (forall t, matches a t -> Forall P t) -> matches (Star a) s -> Forall P s.
Proof.
  intros Ha H. remember (Star a) as p eqn:Hp.
  induction H as [| | | | | |a' s1 s2 H1 _ H2 IH2]; try done.
  injection Hp as ->. apply Forall_app. auto.
Qed.

Lemma matches_Star_last a s :
  matches (Star a) s -> s <> [] ->
  exists front t, s = front ++ t /\ matches a t /\ t <> [].
Proof.
  intros H. remember (Star a) as p eqn:Hp.
  induction H as [| | | | | |a' s1 s2 H1 _ H2 IH2]; try done.
  injection Hp as ->. intros Hne. destruct s2 as [|c s2].
  - rewrite app_nil_r in *. by exists [], s1.
  - destruct (IH2 eq_refl) as (front & t & Heq & Ht & Hne'); [done|].
    exists (s1 ++ front), t. rewrite Heq. by rewrite app_assoc.
Qed.

Lemma matches_Plus_textchars s :
  matches (Plus TEXTCHAR) s <-> s <> [] /\ Forall (fun c => is_textchar c = true) s.
Proof.
  split.
  - intros (s1 & s2 & -> & H1 & H2)%matches_Seq_inv.
    apply matches_TEXTCHAR_inv in H1 as (c & -> & Hc). split; [done|].
    constructor; [done|]. eapply matches_Star_Forall; [|exact H2].
    intros t (c' & -> & Hc')%matches_TEXTCHAR_inv. by repeat constructor.
  - intros [Hne Hall]. destruct s as [|c s]; [done|].
    apply Forall_cons in Hall as [Hc Hall].
    apply (matches_Seq TEXTCHAR (Star TEXTCHAR) [c] s); [by apply matches_TEXTCHAR|].
    clear Hne Hc. induction Hall as [|c' s Hc' _ IH]; [constructor|].
    apply (matches_Star_cons TEXTCHAR [c'] s); [by apply matches_TEXTCHAR|done].
Qed.

Lemma backtick_reserved : is_reserved_punctuation "`" = true.
Proof. reflexivity. Qed.

Lemma SAFECHAR_textchars s :
  matches SAFECHAR s -> s <> [] /\ Forall (fun c => is_textchar c = true) s.
Proof.
  unfold is_textchar.
  intros [(c & -> & [Hc|Hc])|(X & -> & HX)]%matches_SAFECHAR_inv;
    (split; [done|]); repeat constructor; rewrite ?Hc, ?HX, ?backtick_reserved;
    by rewrite ?orb_true_r.
Qed.

Lemma WORD_pieces s :
  matches WORD s ->
  exists first rest, s = first ++ rest /\ matches SAFECHAR first /\
    Forall (fun c => is_textchar c = true) rest /\
    (rest = [] \/
     exists middle final, rest = middle ++ final /\
       (matches SAFECHAR final \/ matches DIGIT final)).
Proof.
  intros [H|H]%matches_Or_inv.
  - apply matches_Seq_inv in H as (first & rest & -> & H1 & H2).
    exists first, rest. split_and!; [done..| |].
    + eapply matches_Star_Forall; [|exact H2]. by intros t [_ ?]%SAFECHAR_textchars.
    + destruct rest as [|c rest]; [by left|right].
      destruct (matches_Star_last _ _ H2) as (middle & final & -> & Hf & _); [done|].
      exists middle, final. auto.
  - apply matches_Seq_inv in H as (first & rest & -> & H1 & H2).
    apply matches_Seq_inv in H2 as (middle & final & -> & H2 & H3).
    exists first, (middle ++ final). split_and!; [done..| |].
    + apply Forall_app. split.
      * eapply matches_Star_Forall; [|exact H2].
        intros t (c & -> & Hc)%matches_TEXTCHAR_inv. by repeat constructor.
      * apply matches_Or_inv in H3 as [H3|H3].
        -- by apply SAFECHAR_textchars in H3 as [_ ?].
        -- apply matches_Class_inv in H3 as (c & -> & Hc).
           repeat constructor. unfold is_textchar. by rewrite Hc.
    + right. exists middle, final. split; [done|].
      by apply matches_Or_inv in H3.
Qed.

Lemma WORD_textchars s :
  matches WORD s -> s <> [] /\ Forall (fun c => is_textchar c = true) s.
Proof.
  intros (first & rest & -> & H1 & Hrest & _)%WORD_pieces.
  apply SAFECHAR_textchars in H1 as [Hne Hfirst]. split.
  - by destruct first.
  - by apply Forall_app.
Qed.

Lemma textchar_not_blank c :
  is_textchar c = true ->
  accepts WHITESPACE [c] = false /\ accepts CR [c] = false /\ accepts LF [c] = false.
Proof. destruct c as [[] [] [] [] [] [] [] []]; by vm_compute. Qed.

Lemma one_of_In l c : one_of l c = true -> In c l.
Proof.
  unfold one_of. intros (x & Hx & Heq)%existsb_exists.
  by apply Ascii.eqb_eq in Heq as ->.
Qed.

(** X11: every lexeme of [WORD] is a lexeme of [UNSAFE_WORD]. *)
Theorem WORD_is_UNSAFE_WORD s :
  accepts WORD s = true -> accepts UNSAFE_WORD s = true.
Proof.
  rewrite !accepts_matches. intros H. apply matches_Plus_textchars.
  by apply WORD_textchars.
Qed.

Lemma WORD_is_UNSAFE_WORD_witness :
  accepts WORD (chars "a`#b") = true /\ accepts UNSAFE_WORD (chars "a`#b") = true.
Proof. split; [reflexivity|apply WORD_is_UNSAFE_WORD; reflexivity]. Defined.

(** X12: a [WORD] begins with a letter, a safe punctuation character, or a
    backtick that is followed by a reserved punctuation character. *)
Theorem WORD_first_character s :
  accepts WORD s = true ->
  exists c rest, s = c :: rest /\
    (is_letter c = true \/ is_safe_punctuation c = true \/
     c = "`"%char /\
     exists X rest', rest = X :: rest' /\ is_reserved_punctuation X = true).
Proof.
  rewrite accepts_matches.
  intros (first & rest & -> & H1 & _)%WORD_pieces.
  apply matches_SAFECHAR_inv in H1 as [(c & -> & [Hc|Hc])|(X & -> & HX)].
  - exists c, rest. auto.
  - exists c, rest. auto.
  - exists "`"%char, (X :: rest). split; [done|]. right. right. eauto.
Qed.

Lemma WORD_first_character_witness :
  accepts WORD (chars "`*bold") = true /\
  exists c rest, chars "`*bold" = c :: rest /\
    (is_letter c = true \/ is_safe_punctuation c = true \/
     c = "`"%char /\
     exists X rest', rest = X :: rest' /\ is_reserved_punctuation X = true).
Proof. split; [reflexivity|apply WORD_first_character; reflexivity]. Defined.

(** X13: a [WORD] ends with a letter, a safe punctuation character, a digit,
    or a reserved punctuation character that a backtick precedes. *)
Theorem WORD_last_character s :
  accepts WORD s = true ->
  exists front c, s = front ++ [c] /\
    (is_letter c = true \/ is_safe_punctuation c = true \/ is_digit c = true \/
     is_reserved_punctuation c = true /\
     exists front', front = front' ++ ["`"%char]).
Proof.
  rewrite accepts_matches.
  assert (Hsafe : forall front final, matches SAFECHAR final ->
    exists front0 c, front ++ final = front0 ++ [c] /\
      (is_letter c = true \/ is_safe_punctuation c = true \/ is_digit c = true \/
       is_reserved_punctuation c = true /\
       exists front', front0 = front' ++ ["`"%char])).
  { intros front final [(c & -> & [Hc|Hc])|(X & -> & HX)]%matches_SAFECHAR_inv.
    - exists front, c. auto.
    - exists front, c. auto.
    - exists (front ++ ["`"%char]), X. split; [by rewrite <- app_assoc|].
      do 3 right. eauto. }
  intros (first & rest & -> & H1 & _ & [->|(middle & final & -> & [Hf|Hf])])%WORD_pieces.
  - rewrite app_nil_r. by apply (Hsafe []).
  - rewrite app_assoc. by apply Hsafe.
  - apply matches_Class_inv in Hf as (c & -> & Hc).
    exists (first ++ middle), c. split; [by rewrite app_assoc|auto].
Qed.

Lemma WORD_last_character_witness :
  accepts WORD (chars "a#1") = true /\
  exists front c, chars "a#1" = front ++ [c] /\
    (is_letter c = true \/ is_safe_punctuation c = true \/ is_digit c = true \/
     is_reserved_punctuation c = true /\
     exists front', front = front' ++ ["`"%char]).
Proof. split; [reflexivity|apply WORD_last_character; reflexivity]. Defined.

(** X14: no character of a lexeme of [WORD] or of [UNSAFE_WORD] is a
    [WHITESPACE], a [CR] or a [LF]: a word holds no space, no tab and no
    line break. *)
Theorem words_have_no_blank s :
  accepts WORD s = true \/ accepts UNSAFE_WORD s = true ->
  Forall (fun c => accepts WHITESPACE [c] = false /\
                   accepts CR [c] = false /\ accepts LF [c] = false) s.
Proof.
  rewrite !accepts_matches. intros H.
  assert (Htext : Forall (fun c => is_textchar c = true) s).
  { destruct H as [H|H]; [by apply WORD_textchars in H as [_ ?]|].
    by apply matches_Plus_textchars in H as [_ ?]. }
  eapply Forall_impl; [exact Htext|]. apply textchar_not_blank.
Qed.

Lemma words_have_no_blank_witness :
  (accepts WORD (chars "2024") = true \/ accepts UNSAFE_WORD (chars "2024") = true) /\
  Forall (fun c => accepts WHITESPACE [c] = false /\
                   accepts CR [c] = false /\ accepts LF [c] = false) (chars "2024").
Proof.
  assert (H : accepts WORD (chars "2024") = true \/
              accepts UNSAFE_WORD (chars "2024") = true) by (right; reflexivity).
  split; [exact H|exact (words_have_no_blank _ H)].
Defined.

(** X15: a reserved punctuation character alone is no [WORD], although it is
    an [UNSAFE_WORD]; behind a backtick it is a [WORD]. *)
Theorem reserved_needs_escape X :
  is_reserved_punctuation X = true ->
  accepts WORD [X] = false /\
  accepts UNSAFE_WORD [X] = true /\
  accepts WORD ["`"%char; X] = true.
Proof.
  intros H%one_of_In. repeat (destruct H as [<-|H]; [by vm_compute|]).
  destruct H.
Qed.

Lemma reserved_needs_escape_witness :
  is_reserved_punctuation "#" = true /\
  accepts WORD ["#"%char] = false /\
  accepts UNSAFE_WORD ["#"%char] = true /\
  accepts WORD ["`"%char; "#"%char] = true.
Proof. split; [reflexivity|apply reserved_needs_escape; reflexivity]. Defined.

End Pattern_facts.
